(** * Homey Open AIR: the app-store image generator (generate_images.py)

    A shallow embedding of the drawing script and the properties of its
    curve sampler, its scaled measurements, its glow layer and its
    error handling.

    Python's [float] is IEEE 754 binary64; it is modelled by the
    standard library's [spec_float] with precision 53 and maximal
    exponent 1024, every operation rounding to nearest, ties to even.
    Python's [int] is [Z].  Exceptions are values of [exn], threaded
    through a small error monad. *)

From Stdlib Require Import String.
From Stdlib Require Import ZArith List Bool Lia SpecFloat.
Import ListNotations.

Local Open Scope Z_scope.

(** ** Exceptions and the error monad *)

Inductive exn : Type :=
| OverflowError
| ValueError
| ZeroDivisionError
| IndexError
| OSError
| OtherError (name : string).

Inductive result (A : Type) : Type :=
| Ok (a : A)
| Raise (e : exn).

Arguments Ok {A} a.
Arguments Raise {A} e.

Definition bind {A B : Type} (m : result A) (k : A -> result B) : result B :=
  match m with
  | Ok a => k a
  | Raise e => Raise e
  end.

Notation "x <- m ;; k" := (bind m (fun x => k))
  (at level 61, m at next level, right associativity).
Notation "' pat <- m ;; k" := (bind m (fun x => match x with pat => k end))
  (at level 61, pat pattern, m at next level, right associativity).

Fixpoint mapM {A B : Type} (f : A -> result B) (l : list A) : result (list B) :=
  match l with
  | [] => Ok []
  | a :: l' => b <- f a ;; bs <- mapM f l' ;; Ok (b :: bs)
  end.

(** ** Python floats *)

Module Py.

Definition float := spec_float.

Definition prec : Z := 53.
Definition emax : Z := 1024.

Definition fadd : float -> float -> float := SFadd prec emax.
Definition fsub : float -> float -> float := SFsub prec emax.
Definition fmul : float -> float -> float := SFmul prec emax.
Definition fdiv_ieee : float -> float -> float := SFdiv prec emax.

Definition is_zero (x : float) : bool :=
  match x with S754_zero _ => true | _ => false end.

Definition is_finite (x : float) : bool :=
  match x with S754_zero _ | S754_finite _ _ _ => true | _ => false end.

(** [==], [<] and [<=] on floats. *)
Definition feqb : float -> float -> bool := SFeqb.
Definition fltb : float -> float -> bool := SFltb.
Definition fleb : float -> float -> bool := SFleb.

(** The nearest float of an integer, before the overflow check. *)
Definition of_Z (z : Z) : float := binary_normalize prec emax z 0 false.

(** [float(z)]: the conversion rounds to nearest and raises
    [OverflowError] when the integer is too large. *)
Definition float_of_int (z : Z) : result float :=
  match of_Z z with
  | S754_infinity _ => Raise OverflowError
  | f => Ok f
  end.

(** [x / y] on floats: Python raises instead of returning an infinity
    or a NaN for a zero divisor. *)
Definition fdiv (x y : float) : result float :=
  if is_zero y then Raise ZeroDivisionError else Ok (fdiv_ieee x y).

(** [a / b] on integers (true division): the correctly rounded
    quotient. *)
Definition int_truediv (a b : Z) : result float :=
  if b =? 0 then Raise ZeroDivisionError
  else if a =? 0 then Ok (S754_zero false)
  else
    let '(mz, ez, lz) := SFdiv_core_binary prec emax (Z.abs a) 0 (Z.abs b) 0 in
    match binary_round_aux prec emax (xorb (a <? 0) (b <? 0)) mz ez lz with
    | S754_infinity _ => Raise OverflowError
    | f => Ok f
    end.

(** [int(x)]: truncation toward zero. *)
Definition int_of_float (x : float) : result Z :=
  match x with
  | S754_nan => Raise ValueError
  | S754_infinity _ => Raise OverflowError
  | S754_zero _ => Ok 0
  | S754_finite s m e => Ok (cond_Zopp s (Z.shiftl (Zpos m) e))
  end.

(** A decimal literal [n/d] with [n] and [d] exactly representable is
    the correctly rounded quotient. *)
Definition lit (n d : Z) : float := fdiv_ieee (of_Z n) (of_Z d).

(** [z * x], [z + x], [z - x] and [x / z] with an integer operand:
    the integer is converted first. *)
Definition imul (z : Z) (x : float) : result float :=
  fz <- float_of_int z ;; Ok (fmul fz x).

Definition iadd (z : Z) (x : float) : result float :=
  fz <- float_of_int z ;; Ok (fadd fz x).

Definition isub (z : Z) (x : float) : result float :=
  fz <- float_of_int z ;; Ok (fsub fz x).

Definition idiv (z : Z) (x : float) : result float :=
  fz <- float_of_int z ;; fdiv fz x.

End Py.

(** ** Rounding to binary64, in integers

    The magnitude of a valid finite float is an integer number of
    units of 2^-1074, the smallest positive float. *)

(** A record [(m, r, s)] describes the non-negative rational [a/b]:
    [m] is its integer part, [r] tells whether the fractional part is
    at least one half, [s] whether it is neither zero nor one half. *)
Definition describes (mrs : shr_record) (a b : Z) : Prop :=
  shr_m mrs = a / b /\
  shr_r mrs = (b <=? 2 * (a mod b)) /\
  shr_s mrs = negb ((a mod b =? 0) || (2 * (a mod b) =? b)).

(** The float made of the rounded mantissa [m] at exponent [E]. *)
Definition rounded (sx : bool) (m E : Z) : spec_float :=
  if m =? 0 then S754_zero sx
  else if m =? 9007199254740992 then
    if E + 1 <=? 971 then S754_finite sx 4503599627370496 (E + 1)
    else S754_infinity sx
  else if E <=? 971 then S754_finite sx (Z.to_pos m) E
  else S754_infinity sx.

(** The magnitude in units of 2^-1074. *)
Definition mag (x : spec_float) : Z :=
  match x with
  | S754_finite _ m e => Zpos m * 2 ^ (e + 1074)
  | _ => 0
  end.

(** Zeros and finite floats in canonical form. *)
Definition fin (x : spec_float) : Prop :=
  match x with
  | S754_zero _ => True
  | S754_finite _ m e => bounded 53 1024 m e = true
  | _ => False
  end.

Definition sign_of (x : spec_float) : bool :=
  match x with
  | S754_zero s | S754_infinity s | S754_finite s _ _ => s
  | S754_nan => false
  end.


(** ** Drawing primitives

    Pillow's rasteriser is outside the script: a drawing call is
    recorded as a command on the image it draws on. *)

Import Py.

Declare Scope float_scope.
Delimit Scope float_scope with fl.
Infix "⊕" := fadd (at level 50, left associativity) : float_scope.
Infix "⊖" := fsub (at level 50, left associativity) : float_scope.
Infix "⊗" := fmul (at level 40, left associativity) : float_scope.
Infix "⊘" := fdiv_ieee (at level 40, left associativity) : float_scope.
Local Open Scope float_scope.

(** An integer literal used as a float operand. *)
Definition fi (k : Z) : float := of_Z k.

Definition point : Type := float * float.

Inductive num : Type :=
| Int (z : Z)
| Flt (x : float).

Inductive color : Type :=
| RGB (r g b : Z)
| RGBA (r g b a : Z).

Inductive font : Type :=
| TrueType (path : string) (size : Z)
| DefaultFont.

Inductive draw_cmd : Type :=
| Line (xy : list (num * num)) (fill : color) (width : Z)
| Ellipse (x0 y0 x1 y1 : num) (fill : color)
| RoundedRectangle (x0 y0 x1 y1 : Z) (radius : Z) (fill : color)
| Text (x y : Z) (text : string) (fill : color) (f : font).

Inductive image : Type :=
| Image_new (mode : string) (width height : Z) (bg : color)
| Drawn (img : image) (cmds : list draw_cmd)
| Alpha_composite (im1 im2 : image)
| Paste_alpha (dst src : image).

(** --- Colours --- *)
Definition BG_DARK : color := RGB 30 47 60.
Definition BG_MID : color := RGB 36 58 74.
Definition GREEN : color := RGB 46 204 113.
Definition ICON_WHITE : color := RGB 220 225 230.
Definition LINE_DIM : color := RGB 50 75 90.
Definition DOT_DIM : color := RGB 55 80 95.
Definition TEXT_COL : color := RGB 160 185 200.
Definition GREEN_DIM : color := RGBA 46 204 113 60.

(** ** Sequences *)

(** [range(start, stop, step)] for a non-zero step. *)
Definition range3 (start stop step : Z) : list Z :=
  let n :=
    if 0 <? step then (stop - start + step - 1) / step
    else (start - stop + (- step) - 1) / (- step) in
  map (fun k => start + Z.of_nat k * step) (seq 0 (Z.to_nat n)).

(** [range(start, stop, step)]: a zero step raises [ValueError]. *)
Definition py_range (start stop step : Z) : result (list Z) :=
  if step =? 0 then Raise ValueError else Ok (range3 start stop step).

Definition range (start stop : Z) : list Z := range3 start stop 1.

(** [l[i]] for a non-negative constant index. *)
Definition index {A : Type} (l : list A) (i : nat) : result A :=
  match nth_error l i with
  | Some a => Ok a
  | None => Raise IndexError
  end.

(** The pairs [(l[i], l[i+1])] for [i] in [range(len(l) - 1)]. *)
Definition consecutive {A : Type} (l : list A) : list (A * A) :=
  combine l (tl l).

(** ** The runtime outside the script

    The power function and the sine of the C library, the font loader,
    the text measurement and the file writer of Pillow. *)

Record runtime : Type := {
  rt_pow : float -> Z -> result float;
  rt_sin : float -> float;
  rt_truetype : string -> Z -> result font;
  rt_load_default : result font;
  rt_textbbox : font -> string -> Z * Z * Z * Z;
  rt_save : image -> string -> result unit
}.

(** [math.pi] *)
Definition pi : float := S754_finite false 7074237752028440 (-51).

Section Script.

Variable rt : runtime.

Notation "x ** n" := (rt_pow rt x n) (at level 30, right associativity).

(** ** draw_breeze_curve *)

Definition steps : Z := 80.

(** One coordinate of [cubic_bezier], with [u = 1 - t]:
    [u**3 * a0 + 3*u**2*t * a1 + 3*u*t**2 * a2 + t**3 * a3]. *)
Definition bezier_coord (a0 a1 a2 a3 u t : float) : result float :=
  u3 <- u ** 3 ;;
  u2 <- u ** 2 ;;
  t2 <- t ** 2 ;;
  t3 <- t ** 3 ;;
  Ok (u3 ⊗ a0 ⊕ fi 3 ⊗ u2 ⊗ t ⊗ a1 ⊕ fi 3 ⊗ u ⊗ t2 ⊗ a2 ⊕ t3 ⊗ a3).

Definition cubic_bezier (p0 p1 p2 p3 : point) (t : float) : result point :=
  let u := fi 1 ⊖ t in
  x <- bezier_coord (fst p0) (fst p1) (fst p2) (fst p3) u t ;;
  y <- bezier_coord (snd p0) (snd p1) (snd p2) (snd p3) u t ;;
  Ok (x, y).

(** The sample at step [i] of the segment on the control points
    [points[k]], ..., [points[k+3]]. *)
Definition sample (points : list point) (k : nat) (i : Z) : result point :=
  t <- int_truediv i steps ;;
  p0 <- index points k ;;
  p1 <- index points (k + 1) ;;
  p2 <- index points (k + 2) ;;
  p3 <- index points (k + 3) ;;
  cubic_bezier p0 p1 p2 p3 t.

(** [all_pts]: the first segment at steps 0..80, the second at
    steps 1..80. *)
Definition all_pts (points : list point) : result (list point) :=
  seg1 <- mapM (sample points 0) (range 0 (steps + 1)) ;;
  seg2 <- mapM (sample points 3) (range 1 (steps + 1)) ;;
  Ok (seg1 ++ seg2).

Definition xy (p : point) : num * num := (Flt (fst p), Flt (snd p)).

Definition draw_breeze_curve (points : list point) (width : Z) (c : color)
  : result (list draw_cmd) :=
  pts <- all_pts points ;;
  Ok (map (fun ab => Line [xy (fst ab); xy (snd ab)] c width) (consecutive pts)).

(** ** draw_icon *)

(** Top curve: M 18 30 C 30 18, 44 42, 56 30 C 68 18, 80 34, 90 26 *)
Definition top_curve : list (Z * Z) :=
  [(18, 30); (30, 18); (44, 42); (56, 30); (68, 18); (80, 34); (90, 26)].
(** Middle curve: M 10 50 C 24 36, 40 64, 54 50 C 68 36, 82 56, 94 46 *)
Definition middle_curve : list (Z * Z) :=
  [(10, 50); (24, 36); (40, 64); (54, 50); (68, 36); (82, 56); (94, 46)].
(** Bottom curve: M 18 70 C 30 58, 44 82, 56 70 C 68 58, 80 74, 90 66 *)
Definition bottom_curve : list (Z * Z) :=
  [(18, 70); (30, 58); (44, 82); (56, 70); (68, 58); (80, 74); (90, 66)].

Definition curves : list (list (Z * Z)) := [top_curve; middle_curve; bottom_curve].

(** [(ox + p[0] * s, oy + p[1] * s)] *)
Definition place (ox oy s : float) (p : Z * Z) : point :=
  (ox ⊕ fi (fst p) ⊗ s, oy ⊕ fi (snd p) ⊗ s).

Fixpoint enumerate_from {A : Type} (i : nat) (l : list A) : list (nat * A) :=
  match l with
  | [] => []
  | a :: l' => (i, a) :: enumerate_from (S i) l'
  end.

Definition draw_icon (cx cy : Z) (size : float) (c : color) (line_widths : list Z)
  : result (list draw_cmd) :=
  let s := size ⊘ fi 100 in
  ox <- isub cx (fi 52 ⊗ s) ;;
  oy <- isub cy (fi 50 ⊗ s) ;;
  cmds <- mapM (fun ic =>
            let scaled := map (place ox oy s) (snd ic) in
            w <- index line_widths (fst ic) ;;
            draw_breeze_curve scaled w c)
          (enumerate_from 0 curves) ;;
  Ok (concat cmds).

(** ** draw_decorative_wave *)

Definition draw_decorative_wave (y_base amplitude wavelength x_start x_end : float)
  (c : color) (width : Z) : result (list draw_cmd) :=
  x0 <- int_of_float x_start ;;
  x1 <- int_of_float x_end ;;
  pts <- mapM (fun x =>
           dx <- isub x x_start ;;
           a <- fdiv (fi 2 ⊗ pi ⊗ dx) wavelength ;;
           Ok (Int x, Flt (y_base ⊕ amplitude ⊗ rt_sin rt a)))
         (range3 x0 x1 2) ;;
  Ok (map (fun ab => Line [fst ab; snd ab] c width) (consecutive pts)).

(** ** draw_grid_dots *)

Definition draw_grid_dots (x y rows cols spacing : Z) (c : color) (radius : Z)
  : list draw_cmd :=
  flat_map (fun r =>
    map (fun k =>
      let cx := x + k * spacing in
      let cy := y + r * spacing in
      Ellipse (Int (cx - radius)) (Int (cy - radius))
              (Int (cx + radius)) (Int (cy + radius)) c)
      (range 0 cols))
    (range 0 rows).

(** ** generate_image *)

(** The float literals of the script. *)
Definition f_0_15 : float := Eval vm_compute in lit 15 100.
Definition f_0_52 : float := Eval vm_compute in lit 52 100.
Definition f_1_5 : float := Eval vm_compute in lit 15 10.
Definition f_0_46 : float := Eval vm_compute in lit 46 100.
Definition f_0_40 : float := Eval vm_compute in lit 40 100.
Definition f_3_2 : float := Eval vm_compute in lit 32 10.
Definition f_0_76 : float := Eval vm_compute in lit 76 100.
Definition f_0_84 : float := Eval vm_compute in lit 84 100.
Definition f_0_6 : float := Eval vm_compute in lit 6 10.

(** [scale = width / 1000.0] *)
Definition scale_of (width : Z) : result float :=
  w <- float_of_int width ;; Ok (w ⊘ fi 1000).

(** [int(k * scale)] for a literal [k]. *)
Definition scaled (k : float) (scale : float) : result Z :=
  int_of_float (k ⊗ scale).

(** [int(height * k)] for a literal [k]. *)
Definition at_height (height : Z) (k : float) : result Z :=
  hy <- imul height k ;; int_of_float hy.

(** --- Background gradient (simple vertical) --- *)

Definition red (c : color) : Z :=
  match c with RGB r _ _ | RGBA r _ _ _ => r end.
Definition green (c : color) : Z :=
  match c with RGB _ g _ | RGBA _ g _ _ => g end.
Definition blue (c : color) : Z :=
  match c with RGB _ _ b | RGBA _ _ b _ => b end.

Definition blend (d m : Z) (t : float) : result Z :=
  int_of_float (fi d ⊗ (fi 1 ⊖ t ⊗ f_0_15) ⊕ fi m ⊗ t ⊗ f_0_15).

Definition background_gradient (width height : Z) : result (list draw_cmd) :=
  mapM (fun y =>
    t <- int_truediv y height ;;
    r <- blend (red BG_DARK) (red BG_MID) t ;;
    g <- blend (green BG_DARK) (green BG_MID) t ;;
    b <- blend (blue BG_DARK) (blue BG_MID) t ;;
    Ok (Line [(Int 0, Int y); (Int width, Int y)] (RGB r g b) 0))
  (range 0 height).

(** --- Grid lines (very subtle) --- *)

Definition grid_spacing (scale : float) : result Z := scaled (fi 70) scale.

Definition grid_lines (width height : Z) (scale : float) : result (list draw_cmd) :=
  let grid_color := RGB 35 55 68 in
  spacing <- grid_spacing scale ;;
  if 0 <? spacing then
    xs <- py_range 0 width spacing ;;
    ys <- py_range 0 height spacing ;;
    Ok (map (fun x => Line [(Int x, Int 0); (Int x, Int height)] grid_color 1) xs
        ++ map (fun y => Line [(Int 0, Int y); (Int width, Int y)] grid_color 1) ys)
  else Ok [].

(** --- Grid dots in corners --- *)

Definition dot_r (scale : float) : result Z :=
  d <- scaled (fi 3) scale ;; Ok (Z.max 2 d).

Definition dot_spacing (scale : float) : result Z := scaled (fi 18) scale.

Definition corner_dots (width : Z) (scale : float) : result (list draw_cmd) :=
  r <- dot_r scale ;;
  spacing <- dot_spacing scale ;;
  x1 <- scaled (fi 55) scale ;;
  y1 <- scaled (fi 45) scale ;;
  let top_left := draw_grid_dots x1 y1 3 3 spacing DOT_DIM r in
  off <- scaled (fi 100) scale ;;
  y2 <- scaled (fi 45) scale ;;
  Ok (top_left ++ draw_grid_dots (width - off) y2 3 3 spacing DOT_DIM r).

(** --- Decorative wavy lines in middle background --- *)

Definition wave_width (scale : float) : result Z :=
  w <- scaled f_1_5 scale ;; Ok (Z.max 1 w).

Definition wavy_lines (width height : Z) (scale : float) : result (list draw_cmd) :=
  wave_y_base <- imul height f_0_52 ;;
  waves <- mapM (fun io =>
             let i := Z.of_nat (fst io) in
             let offset := snd io in
             let amp := fi 12 ⊗ scale ⊕ fi (i * 2) ⊗ scale in
             let wl := fi 350 ⊗ scale ⊕ fi (i * 50) ⊗ scale in
             x_end <- isub width (fi 30 ⊗ scale) ;;
             w <- wave_width scale ;;
             draw_decorative_wave (wave_y_base ⊕ fi offset ⊗ scale) amp wl
               (fi 30 ⊗ scale) x_end LINE_DIM w)
           (enumerate_from 0 [-40; -15; 12; 38; 62]) ;;
  Ok (concat waves).

(** --- Green glow under icon --- *)

Definition glow_rx (scale : float) : result Z := scaled (fi 90) scale.
Definition glow_ry (scale : float) : result Z := scaled (fi 30) scale.

Definition glow_cy (height : Z) (scale : float) : result Z :=
  hy <- imul height f_0_46 ;; int_of_float (hy ⊕ fi 45 ⊗ scale).

(** [alpha = int(8 * (20 - r))] *)
Definition glow_alpha (r : Z) : Z := 8 * (20 - r).

(** [ex = glow_rx + r * 3 * scale] and [ey = glow_ry + r * 1 * scale] *)
Definition glow_ex (rx : Z) (scale : float) (r : Z) : result float :=
  d <- imul (r * 3) scale ;; iadd rx d.
Definition glow_ey (ry : Z) (scale : float) (r : Z) : result float :=
  d <- imul (r * 1) scale ;; iadd ry d.

Definition glow_ellipse (cx cy rx ry : Z) (scale : float) (r : Z) : result draw_cmd :=
  let alpha := glow_alpha r in
  ex <- glow_ex rx scale r ;;
  ey <- glow_ey ry scale r ;;
  x0 <- isub cx ex ;;
  y0 <- isub cy ey ;;
  x1 <- iadd cx ex ;;
  y1 <- iadd cy ey ;;
  Ok (Ellipse (Flt x0) (Flt y0) (Flt x1) (Flt y1) (RGBA 46 204 113 (Z.min alpha 50))).

Definition glow_radii : list Z := range3 20 0 (-1).

Definition glow_layer (width height : Z) (scale : float) : result image :=
  let glow_img := Image_new "RGBA"%string width height (RGBA 0 0 0 0) in
  let cx := width / 2 in
  cy <- glow_cy height scale ;;
  rx <- glow_rx scale ;;
  ry <- glow_ry scale ;;
  ellipses <- mapM (glow_ellipse cx cy rx ry scale) glow_radii ;;
  Ok (Drawn glow_img ellipses).

(** --- Main icon --- *)

Definition icon_lw (scale : float) : result (list Z) :=
  a <- scaled (fi 5) scale ;;
  b <- scaled (fi 4) scale ;;
  c <- scaled f_3_2 scale ;;
  Ok [Z.max 2 a; Z.max 2 b; Z.max 1 c].

Definition main_icon (width height : Z) (scale : float) : result (list draw_cmd) :=
  let icon_cx := width / 2 in
  icon_cy <- at_height height f_0_40 ;;
  let icon_size := fi 160 ⊗ scale in
  lw <- icon_lw scale ;;
  draw_icon icon_cx icon_cy icon_size ICON_WHITE lw.

(** --- Sensor readings at bottom --- *)

Definition font_path : string := "/System/Library/Fonts/Helvetica.ttc"%string.

Definition font_size (scale : float) : result Z :=
  n <- scaled (fi 16) scale ;; Ok (Z.max 10 n).
Definition small_font_size (scale : float) : result Z :=
  n <- scaled (fi 12) scale ;; Ok (Z.max 8 n).

(** The body of the [try]. *)
Definition truetype_fonts (scale : float) : result (font * font) :=
  n <- font_size scale ;;
  f <- rt_truetype rt font_path n ;;
  m <- small_font_size scale ;;
  small <- rt_truetype rt font_path m ;;
  Ok (f, small).

(** [try: ... except (OSError, IOError): font = load_default();
    small_font = font]; [IOError] is [OSError]. *)
Definition load_fonts (scale : float) : result (font * font) :=
  match truetype_fonts scale with
  | Ok fonts => Ok fonts
  | Raise OSError => f <- rt_load_default rt ;; Ok (f, f)
  | Raise e => Raise e
  end.

Definition readings : list (string * color) :=
  [ ("22.4°C"%string, GREEN); ("58.2%"%string, GREEN);
    ("CO₂  412 ppm"%string, GREEN); ("VOC  Index 98"%string, GREEN) ].

(** The loop over the readings, with the font that was loaded. *)
Definition draw_readings (width text_y : Z) (f : font) : result (list draw_cmd) :=
  section_w <- int_truediv width (Z.of_nat (length readings)) ;;
  mapM (fun itc =>
    let i := Z.of_nat (fst itc) in
    let text := fst (snd itc) in
    tx <- int_of_float (section_w ⊗ fi i ⊕ section_w ⊘ fi 2) ;;
    let '(b0, _, b2, _) := rt_textbbox rt f text in
    let tw := b2 - b0 in
    Ok (Text (tx - tw / 2) text_y text TEXT_COL f))
  (enumerate_from 0 readings).

Definition sensor_readings (width height : Z) (scale : float)
  : result (list draw_cmd) :=
  text_y <- at_height height f_0_76 ;;
  fonts <- load_fonts scale ;;
  draw_readings width text_y (fst fonts).

(** --- Green progress bar at bottom --- *)

Definition bar_h (scale : float) : result Z :=
  h <- scaled (fi 4) scale ;; Ok (Z.max 2 h).

Definition bar_w (scale : float) : result Z := scaled (fi 250) scale.

Definition bar_x (width w : Z) : Z := (width - w) / 2.

(** [fill_w = int(bar_w * 0.6)] *)
Definition fill_w (w : Z) : result Z :=
  f <- imul w f_0_6 ;; int_of_float f.

Definition progress_bar (width height : Z) (scale : float) : result (list draw_cmd) :=
  y <- at_height height f_0_84 ;;
  h <- bar_h scale ;;
  w <- bar_w scale ;;
  let x := bar_x width w in
  let track := RoundedRectangle x y (x + w) (y + h) (h / 2) (RGB 40 60 75) in
  fw <- fill_w w ;;
  Ok [track; RoundedRectangle x y (x + fw) (y + h) (h / 2) GREEN].

(** --- Save --- *)

Definition save (width height : Z) (img : image) (filename : string) : result image :=
  let img_rgb := Paste_alpha (Image_new "RGB"%string width height BG_DARK) img in
  _ <- rt_save rt img_rgb filename ;;
  Ok img_rgb.

(** The stages after the glow layer has been composited. *)
Definition finish (width height : Z) (scale : float) (img : image) (filename : string)
  : result image :=
  icon <- main_icon width height scale ;;
  texts <- sensor_readings width height scale ;;
  bar <- progress_bar width height scale ;;
  save width height (Drawn img (icon ++ texts ++ bar)) filename.

Definition generate_image (width height : Z) (filename : string) : result image :=
  let img := Image_new "RGBA"%string width height BG_DARK in
  scale <- scale_of width ;;
  bg <- background_gradient width height ;;
  grid <- grid_lines width height scale ;;
  dots <- corner_dots width scale ;;
  waves <- wavy_lines width height scale ;;
  glow <- glow_layer width height scale ;;
  let img := Alpha_composite (Drawn img (bg ++ grid ++ dots ++ waves)) glow in
  finish width height scale img filename.

End Script.

(** ** A concrete runtime

    Powers by repeated multiplication, a machine without the Helvetica
    font file, a six-pixel-wide default font and a writable disk. *)

Fixpoint pow_nat (x : float) (n : nat) : float :=
  match n with
  | O => fi 1
  | S O => x
  | S n' => x ⊗ pow_nat x n'
  end.

Definition no_mac_runtime : runtime := {|
  rt_pow := fun x n => Ok (pow_nat x (Z.to_nat n));
  rt_sin := fun x => x;
  rt_truetype := fun _ _ => Raise OSError;
  rt_load_default := Ok DefaultFont;
  rt_textbbox := fun _ text => (0, 0, 6 * Z.of_nat (String.length text), 11);
  rt_save := fun _ _ => Ok tt
|}.

(** ** Reference values *)

(** The largest finite float. *)
Definition max_float : float := S754_finite false 9007199254740991 971.

(** [max_float / 512] *)
Definition max_float_512 : float := S754_finite false 9007199254740991 962.

(** [max_float / 4] *)
Definition max_float_4 : float := S754_finite false 9007199254740991 969.

(** [max_float / 2] *)
Definition max_float_2 : float := S754_finite false 9007199254740991 970.

(** A float below 1/1000. *)
Definition f_0_0009 : float := Eval vm_compute in lit 9 10000.

(** 2^1023 *)
Definition two_1023 : float := S754_finite false 4503599627370496 971.

(** Floats between 1/70 and 0.015, between 0.014 and 0.99/70, and
    just below 1. *)
Definition f_0_0145 : float := Eval vm_compute in lit 145 10000.
Definition f_0_0141 : float := Eval vm_compute in lit 141 10000.
Definition f_0_99 : float := Eval vm_compute in lit 99 100.

(** The integer part of a non-negative float, as a real number. *)
Definition floor_float (x : float) : Z := mag x / 2 ^ 1074.

(** A scale factor as [scale_of] returns it. *)
Definition good_scale (s : float) : Prop :=
  fin s /\ sign_of s = false /\ mag s <= mag max_float_512.

(** The literals that multiply the scale factor. *)
Definition scale_literal (k : float) : Prop :=
  fin k /\ sign_of k = false /\ mag k <= 512 * 2 ^ 1074.


(** ** Predicates for the curve sampler *)

(** [0 <= x <= 1] *)
Definition in_unit (x : float) : bool :=
  fleb (S754_zero false) x && fleb x (fi 1).

(** The power operator of the runtime does not raise on a base in
    [0, 1] with a positive exponent, and it is exact at 0 and at 1;
    the C standard asks both of [pow]. *)
Definition pow_exact_on_unit (rt : runtime) : Prop :=
  (forall x n, 0 < n -> in_unit x = true -> exists y, rt_pow rt x n = Ok y) /\
  (forall n, 0 < n -> rt_pow rt (S754_zero false) n = Ok (S754_zero false)) /\
  (forall n, 0 < n -> rt_pow rt (fi 1) n = Ok (fi 1)).

(** A point of the plane: both coordinates are finite floats. *)
Definition finite_point (p : point) : Prop := fin (fst p) /\ fin (snd p).

(** [p == q] on points. *)
Definition point_eqb (p q : point) : bool :=
  feqb (fst p) (fst q) && feqb (snd p) (snd q).

(** The parameter of step [i] and its complement stay in [0, 1]. *)
Definition unit_step (i : Z) : bool :=
  match int_truediv i steps with
  | Ok t => in_unit t && in_unit (fi 1 ⊖ t)
  | Raise _ => false
  end.

(** ** Reading a drawing back *)

(** The coordinate sequence of a drawn line. *)
Definition line_coords (cmd : draw_cmd) : list (num * num) :=
  match cmd with
  | Line pts _ _ => pts
  | _ => []
  end.

Definition line_width (cmd : draw_cmd) : option Z :=
  match cmd with
  | Line _ _ w => Some w
  | _ => None
  end.

Definition fill_of (cmd : draw_cmd) : color :=
  match cmd with
  | Line _ c _ | Ellipse _ _ _ _ c | RoundedRectangle _ _ _ _ _ c | Text _ _ _ c _ => c
  end.

Definition result_map {A B : Type} (f : A -> B) (r : result A) : result B :=
  x <- r ;; Ok (f x).

(** The alpha the glow loop applies at radius index [r]. *)
Definition applied_alpha (r : Z) : Z := Z.min (glow_alpha r) 50.

(** The centre, the size and the exactness of the transform for one
    output size. *)
Definition icon_centre_exact (width height : Z) : bool :=
  match scale_of width, at_height height f_0_40 with
  | Ok scale, Ok icon_cy =>
      let icon_cx := width / 2 in
      let s := fi 160 ⊗ scale ⊘ fi 100 in
      match isub icon_cx (fi 52 ⊗ s), isub icon_cy (fi 50 ⊗ s) with
      | Ok ox, Ok oy => point_eqb (place ox oy s (52, 50)) (fi icon_cx, fi icon_cy)
      | _, _ => false
      end
  | _, _ => false
  end.

(** The top curve of the icon as the 250-pixel image places it. *)
Definition top_curve_250 : list point :=
  Eval vm_compute in
    map (place (fi 125 ⊖ fi 52 ⊗ (fi 40 ⊘ fi 100)) (fi 70 ⊖ fi 50 ⊗ (fi 40 ⊘ fi 100))
               (fi 40 ⊘ fi 100)) top_curve.
(** * Properties of binary64 rounding *)

Lemma digits2_pos_bounds (p : positive) :
  2 ^ (Zpos (digits2_pos p) - 1) <= Zpos p < 2 ^ Zpos (digits2_pos p).
Proof.
  induction p as [p IH | p IH | ]; cbn [digits2_pos].
  - rewrite Pos2Z.inj_succ.
    replace (Z.succ (Zpos (digits2_pos p)) - 1) with (Z.succ (Zpos (digits2_pos p) - 1)) by lia.
    rewrite !Z.pow_succ_r by lia. lia.
  - rewrite Pos2Z.inj_succ.
    replace (Z.succ (Zpos (digits2_pos p)) - 1) with (Z.succ (Zpos (digits2_pos p) - 1)) by lia.
    rewrite !Z.pow_succ_r by lia. lia.
  - cbn. lia.
Qed.

Lemma Zdigits2_bounds (m : Z) :
  0 < m -> 0 < Zdigits2 m /\ 2 ^ (Zdigits2 m - 1) <= m < 2 ^ Zdigits2 m.
Proof.
  destruct m as [ | p | p]; try lia. intros _. cbn [Zdigits2].
  split; [lia | apply digits2_pos_bounds].
Qed.

Ltac zbool :=
  repeat match goal with
  | |- context [?x <=? ?y] => destruct (Z.leb_spec x y)
  | |- context [?x =? ?y] => destruct (Z.eqb_spec x y)
  end; cbn [negb orb andb]; try reflexivity; try lia.

Lemma shr_1_describes mrs a b :
  0 <= a -> 0 < b -> describes mrs a b -> describes (shr_1 mrs) a (2 * b).
Proof.
  intros Ha Hb (Hm & Hr & Hs). destruct mrs as [m r s]. cbn [shr_m shr_r shr_s] in Hm, Hr, Hs.
  assert (Hq : 0 <= a / b) by (apply Z.div_pos; lia).
  assert (Hmod := Z.mod_pos_bound a b Hb).
  assert (H2 : a / (2 * b) = (a / b) / 2).
  { rewrite (Z.mul_comm 2 b). rewrite Z.div_div by lia. reflexivity. }
  assert (Hmod2 : a mod (2 * b) = b * ((a / b) mod 2) + a mod b).
  { rewrite (Z.mul_comm 2 b). rewrite Z.rem_mul_r by lia. lia. }
  unfold describes. rewrite H2, Hmod2. rewrite <- Hm in *.
  subst r s. clear Hm H2 Hmod2.
  set (rm := a mod b) in *. clearbody rm.
  destruct m as [ | [p | p | ] | p]; cbn [shr_1 shr_m shr_r shr_s]; try lia.
  - change (0 / 2) with 0. change (0 mod 2) with 0.
    repeat split; zbool.
  - assert (H : Zpos p~1 / 2 = Zpos p)
      by (rewrite Pos2Z.inj_xI; symmetry; apply (Z.div_unique _ 2 _ 1); lia).
    assert (H0 : Zpos p~1 mod 2 = 1)
      by (rewrite Pos2Z.inj_xI; symmetry; apply (Z.mod_unique _ 2 (Zpos p) 1); lia).
    rewrite H, H0. repeat split; zbool.
  - assert (H : Zpos p~0 / 2 = Zpos p)
      by (rewrite Pos2Z.inj_xO; symmetry; apply (Z.div_unique _ 2 _ 0); lia).
    assert (H0 : Zpos p~0 mod 2 = 0)
      by (rewrite Pos2Z.inj_xO; symmetry; apply (Z.mod_unique _ 2 (Zpos p) 0); lia).
    rewrite H, H0. repeat split; zbool.
  - change (1 / 2) with 0. change (1 mod 2) with 1.
    repeat split; zbool.
Qed.

Lemma iter_shr_1_describes (n : positive) : forall mrs a b,
  0 <= a -> 0 < b -> describes mrs a b ->
  describes (iter_pos shr_1 n mrs) a (b * 2 ^ Zpos n).
Proof.
  induction n as [n IH | n IH | ]; intros mrs a b Ha Hb H; cbn [iter_pos].
  - replace (b * 2 ^ Zpos n~1) with (2 * b * 2 ^ Zpos n * 2 ^ Zpos n).
    + apply IH; try lia. apply IH; try lia. now apply shr_1_describes.
    + assert (E : Zpos n~1 = Zpos n + Zpos n + 1) by lia. rewrite E.
      rewrite !Z.pow_add_r by lia. change (2 ^ 1) with 2. ring.
  - replace (b * 2 ^ Zpos n~0) with (b * 2 ^ Zpos n * 2 ^ Zpos n).
    + apply IH; try lia. now apply IH.
    + assert (E : Zpos n~0 = Zpos n + Zpos n) by lia. rewrite E.
      rewrite Z.pow_add_r by lia. ring.
  - rewrite Z.mul_comm. change (2 ^ 1) with 2. now apply shr_1_describes.
Qed.

Lemma shr_describes mrs e n a b :
  0 <= a -> 0 < b -> 0 <= n -> describes mrs a b ->
  describes (fst (shr mrs e n)) a (b * 2 ^ n) /\ snd (shr mrs e n) = e + n.
Proof.
  intros Ha Hb Hn H. destruct n as [ | p | p]; try lia; cbn [shr fst snd].
  - rewrite Z.mul_1_r. split; [assumption | lia].
  - split; [now apply iter_shr_1_describes | reflexivity].
Qed.

Lemma round_bounds mrs a b :
  0 <= a -> 0 < b -> describes mrs a b ->
  let m := round_nearest_even (shr_m mrs) (loc_of_shr_record mrs) in
  a / b <= m <= a / b + 1 /\ (a mod b = 0 -> m = a / b).
Proof.
  intros Ha Hb (Hm & Hr & Hs). destruct mrs as [m r s].
  cbn [shr_m shr_r shr_s] in *. subst m.
  assert (Hmod := Z.mod_pos_bound a b Hb).
  set (rm := a mod b) in *. clearbody rm.
  destruct r, s; cbn [loc_of_shr_record round_nearest_even].
  - split; [lia | ]. intros ->. revert Hr Hs. zbool. 
  - destruct (Z.even (a / b)); (split; [lia | ]); intros ->; revert Hr Hs; zbool.
  - split; [lia | reflexivity].
  - split; [lia | reflexivity].
Qed.

Lemma fexp64_eq e : fexp 53 1024 e = Z.max (e - 53) (-1074).
Proof. reflexivity. Qed.

Lemma shr_m_of_loc m l : shr_m (shr_record_of_loc m l) = m.
Proof. destruct l as [ | [ | | ]]; reflexivity. Qed.

Lemma describes_exact m : 0 <= m -> describes (shr_record_of_loc m loc_Exact) m 1.
Proof.
  intros Hm. unfold describes. cbn [shr_record_of_loc shr_m shr_r shr_s].
  rewrite Z.div_1_r, Z.mod_1_r. repeat split; reflexivity.
Qed.

Lemma pow2_53 : 2 ^ 53 = 9007199254740992.
Proof. reflexivity. Qed.
Lemma pow2_52 : 2 ^ 52 = 4503599627370496.
Proof. reflexivity. Qed.

Lemma binary_round_aux_shape sx mx ex lx a b :
  0 <= a -> 0 < b -> describes (shr_record_of_loc mx lx) a b ->
  ex <= fexp 53 1024 (Zdigits2 mx + ex) ->
  let E := fexp 53 1024 (Zdigits2 mx + ex) in
  let b' := b * 2 ^ (E - ex) in
  exists m,
    a / b' <= m <= a / b' + 1 /\ (a mod b' = 0 -> m = a / b') /\
    a / b' < 2 ^ 53 /\ (-1074 < E -> 2 ^ 52 <= a / b') /\
    binary_round_aux 53 1024 sx mx ex lx = rounded sx m E.
Proof.
  intros Ha Hb Hd Hex E b'.
  assert (Hmx : mx = a / b) by (destruct Hd as [Hd _]; now rewrite shr_m_of_loc in Hd).
  assert (Hmx0 : 0 <= mx) by (subst mx; apply Z.div_pos; lia).
  assert (Hn : 0 <= E - ex) by (unfold E; lia).
  assert (Hp : 0 < 2 ^ (E - ex)) by (apply Z.pow_pos_nonneg; lia).
  assert (Hb' : 0 < b') by (unfold b'; lia).
  destruct (shr_describes (shr_record_of_loc mx lx) ex (E - ex) a b Ha Hb Hn Hd) as [Hd1 He1].
  unfold binary_round_aux, shr_fexp. fold E.
  destruct (shr (shr_record_of_loc mx lx) ex (E - ex)) as [mrs' e'].
  cbn [fst snd] in Hd1, He1. fold b' in Hd1.
  assert (He0 : e' = E) by lia. clear He1. subst e'.
  destruct (round_bounds mrs' a b' Ha Hb' Hd1) as [Hm1 Hm2].
  set (m := round_nearest_even (shr_m mrs') (loc_of_shr_record mrs')) in *.
  assert (Hq : a / b' = mx / 2 ^ (E - ex)).
  { unfold b'. rewrite <- Z.div_div by lia. now rewrite Hmx. }
  assert (HE : E = Z.max (Zdigits2 mx + ex - 53) (-1074)) by reflexivity.
  assert (Hlt : a / b' < 2 ^ 53 /\ (-1074 < E -> 2 ^ 52 <= a / b')).
  { rewrite Hq. destruct (Z.eq_dec mx 0) as [-> | Hnz].
    - rewrite Z.div_0_l by lia. split; [reflexivity | ].
      intros HE'. cbn [Zdigits2] in HE. lia.
    - destruct (Zdigits2_bounds mx ltac:(lia)) as [Hd0 [Hlo Hhi]].
      set (d := Zdigits2 mx) in *. split.
      + apply Z.div_lt_upper_bound; [lia | ].
        rewrite <- Z.pow_add_r by lia.
        eapply Z.lt_le_trans; [apply Hhi | ].
        apply Z.pow_le_mono_r; lia.
      + intros HE'. apply Z.div_le_lower_bound; [lia | ].
        rewrite <- Z.pow_add_r by lia.
        eapply Z.le_trans; [ | apply Hlo].
        apply Z.pow_le_mono_r; lia. }
  exists m. repeat split; try tauto; try lia.
  rewrite pow2_53, pow2_52 in Hlt. destruct Hlt as [Hlt Hge].
  assert (Hm0 : 0 <= a / b') by (apply Z.div_pos; lia).
  unfold rounded.
  destruct (Z.eqb_spec m 0) as [Hz | Hnz].
  - rewrite Hz. cbn [Zdigits2]. rewrite Z.add_0_l.
    assert (Hs : fexp 53 1024 E - E <= 0) by (rewrite fexp64_eq; lia).
    destruct (fexp 53 1024 E - E) as [ | p | p] eqn:Es; try lia; reflexivity.
  - destruct (Z.eqb_spec m 9007199254740992) as [Hbig | Hsmall].
    + rewrite Hbig. change (Zdigits2 9007199254740992) with 54.
      replace (fexp 53 1024 (54 + E) - E) with 1 by (rewrite fexp64_eq; lia).
      cbn [shr_record_of_loc shr iter_pos shr_1 shr_m]. reflexivity.
    + assert (Hmpos : 0 < m) by lia.
      destruct (Zdigits2_bounds m Hmpos) as [Hd0 [Hlo Hhi]].
      assert (Hd53 : Zdigits2 m <= 53).
      { destruct (Z.le_gt_cases (Zdigits2 m) 53) as [ | Hgt]; [assumption | exfalso].
        assert (2 ^ 53 <= 2 ^ (Zdigits2 m - 1)) by (apply Z.pow_le_mono_r; lia).
        rewrite pow2_53 in *. lia. }
      assert (Hdn : -1074 < E -> Zdigits2 m = 53).
      { intros HE'. specialize (Hge HE').
        destruct (Z.le_gt_cases 53 (Zdigits2 m)) as [ | Hlt53]; [lia | exfalso].
        assert (2 ^ Zdigits2 m <= 2 ^ 52) by (apply Z.pow_le_mono_r; lia).
        rewrite pow2_52 in *. lia. }
      assert (Hs : fexp 53 1024 (Zdigits2 m + E) - E = 0) by (rewrite fexp64_eq; lia).
      rewrite Hs. cbn [shr fst snd]. rewrite shr_m_of_loc.
      destruct m as [ | p | p]; try lia. reflexivity.
Qed.

Lemma Zdigits2_le m k : 0 < m -> m < 2 ^ k -> 0 <= k -> Zdigits2 m <= k.
Proof.
  intros Hm Hk Hk0. destruct (Zdigits2_bounds m Hm) as [Hd [Hlo _]].
  destruct (Z.le_gt_cases (Zdigits2 m) k) as [ | Hgt]; [assumption | exfalso].
  assert (2 ^ k <= 2 ^ (Zdigits2 m - 1)) by (apply Z.pow_le_mono_r; lia). lia.
Qed.

Lemma Zdigits2_ge m k : 0 < m -> 2 ^ k <= m -> 0 <= k -> k + 1 <= Zdigits2 m.
Proof.
  intros Hm Hk Hk0. destruct (Zdigits2_bounds m Hm) as [Hd [_ Hhi]].
  destruct (Z.le_gt_cases (k + 1) (Zdigits2 m)) as [ | Hgt]; [assumption | exfalso].
  assert (2 ^ Zdigits2 m <= 2 ^ k) by (apply Z.pow_le_mono_r; lia). lia.
Qed.

Lemma bounded_iff m e :
  bounded 53 1024 m e = true <->
  -1074 <= e <= 971 /\ Zpos m < 2 ^ 53 /\ (-1074 < e -> 2 ^ 52 <= Zpos m).
Proof.
  unfold bounded, canonical_mantissa. rewrite andb_true_iff, Z.eqb_eq, Z.leb_le.
  change (1024 - 53) with 971. rewrite fexp64_eq.
  change (Zpos (digits2_pos m)) with (Zdigits2 (Zpos m)).
  destruct (Zdigits2_bounds (Zpos m) ltac:(lia)) as [Hd [Hlo Hhi]].
  split.
  - intros [Hc He]. split; [lia | ]. split.
    + eapply Z.lt_le_trans; [apply Hhi | ]. apply Z.pow_le_mono_r; lia.
    + intros He'. eapply Z.le_trans; [ | apply Hlo]. apply Z.pow_le_mono_r; lia.
  - intros (He & Hm & Hn). split; [ | lia].
    assert (Zdigits2 (Zpos m) <= 53) by (apply Zdigits2_le; lia).
    destruct (Z.eq_dec e (-1074)) as [-> | Hne]; [lia | ].
    assert (52 + 1 <= Zdigits2 (Zpos m)) by (apply Zdigits2_ge; lia). lia.
Qed.

Lemma pow2_pos k : 0 < 2 ^ k \/ k < 0.
Proof. destruct (Z.le_gt_cases 0 k); [left; apply Z.pow_pos_nonneg; lia | right; lia]. Qed.

(** The rounded value against a representable bound above it. *)
Lemma rounded_upper sx m a b E y :
  0 <= a -> 0 < b -> -1074 <= E ->
  a / b <= m <= a / b + 1 -> (a mod b = 0 -> m = a / b) ->
  a / b < 2 ^ 53 -> (-1074 < E -> 2 ^ 52 <= a / b) ->
  fin y -> a * 2 ^ (E + 1074) <= b * mag y ->
  fin (rounded sx m E) /\ mag (rounded sx m E) <= mag y /\
  sign_of (rounded sx m E) = sx.
Proof.
  intros Ha Hb HE Hm Hex Hlt Hge Hy Hle.
  assert (Hq0 : 0 <= a / b) by (apply Z.div_pos; lia).
  assert (Hdm := Z.div_mod a b ltac:(lia)).
  assert (Hmod := Z.mod_pos_bound a b Hb).
  assert (HpE : 0 < 2 ^ (E + 1074)) by (apply Z.pow_pos_nonneg; lia).
  rewrite pow2_53 in Hlt. rewrite pow2_52 in Hge.
  (* an integer bound on m in units of 2^E *)
  assert (Hkey : m = 0 \/
    exists my ey, y = S754_finite (sign_of y) my ey /\ E <= ey <= 971 /\
                  m <= Zpos my * 2 ^ (ey - E) /\ Zpos my < 2 ^ 53).
  { destruct y as [s | s | | s my ey]; cbn [fin mag] in *; try contradiction.
    - left. rewrite Z.mul_0_r in Hle.
      assert (a = 0) by nia. subst a. rewrite Z.div_0_l in * by lia.
      apply Hex. apply Z.mod_0_l. lia.
    - apply bounded_iff in Hy. destruct Hy as (Hey & Hmy & Hmy').
      right. exists my, ey. split; [reflexivity | ].
      destruct (Z.le_gt_cases E ey) as [HEy | HEy].
      + split; [lia | ]. split; [ | assumption].
        assert (Hp : 2 ^ (ey + 1074) = 2 ^ (ey - E) * 2 ^ (E + 1074)).
        { rewrite <- Z.pow_add_r by lia. f_equal. lia. }
        rewrite Hp in Hle.
        assert (HN : 0 < 2 ^ (ey - E)) by (apply Z.pow_pos_nonneg; lia).
        set (N := Zpos my * 2 ^ (ey - E)) in *.
        assert (Hle' : a <= b * N).
        { apply (Z.mul_le_mono_pos_r _ _ (2 ^ (E + 1074))); [assumption | ].
          unfold N. lia. }
        destruct (Z.eq_dec (a mod b) 0) as [Hz | Hnz].
        * rewrite (Hex Hz). apply Z.div_le_upper_bound; lia.
        * assert (a / b < N); [ | lia].
          apply Z.div_lt_upper_bound; [lia | ].
          destruct (Z.eq_dec a (b * N)) as [Heq | Hneq]; [ | lia].
          exfalso. apply Hnz. rewrite Heq, Z.mul_comm. apply Z.mod_mul. lia.
      + exfalso. specialize (Hge ltac:(lia)).
        assert (Hp : 2 ^ (E + 1074) = 2 ^ (E - ey - 1) * (2 * 2 ^ (ey + 1074))).
        { replace (2 * 2 ^ (ey + 1074)) with (2 ^ (ey + 1074 + 1))
            by (rewrite (Z.pow_add_r 2 (ey + 1074) 1) by lia; change (2 ^ 1) with 2; ring).
          rewrite <- Z.pow_add_r by lia. f_equal. lia. }
        assert (Hq : 0 < 2 ^ (E - ey - 1)) by (apply Z.pow_pos_nonneg; lia).
        assert (Hy0 : 0 < 2 ^ (ey + 1074)) by (apply Z.pow_pos_nonneg; lia).
        rewrite pow2_53 in Hmy. rewrite Hp in Hle.
        assert (4503599627370496 * b <= a) by nia.
        assert (b * (Zpos my * 2 ^ (ey + 1074)) <
                a * (2 ^ (E - ey - 1) * (2 * 2 ^ (ey + 1074)))); [ | lia].
        assert (Zpos my * 2 ^ (ey + 1074) < 4503599627370496 * (2 * 2 ^ (ey + 1074))) by nia.
        assert (4503599627370496 * (2 * 2 ^ (ey + 1074)) <=
                4503599627370496 * (2 ^ (E - ey - 1) * (2 * 2 ^ (ey + 1074)))) by nia.
        nia. }
  unfold rounded.
  destruct (Z.eqb_spec m 0) as [Hz | Hnz].
  - cbn [fin mag sign_of]. split; [exact I | ]. split; [ | reflexivity].
    destruct y; cbn [mag]; try lia.
  - destruct Hkey as [ | (my & ey & Hyeq & HEy & HmN & Hmy)]; [contradiction | ].
    assert (Hmag : mag y = Zpos my * 2 ^ (ey - E) * 2 ^ (E + 1074)).
    { rewrite Hyeq. cbn [mag]. rewrite <- Z.mul_assoc, <- Z.pow_add_r by lia.
      do 2 f_equal. lia. }
    assert (HN : 0 < 2 ^ (ey - E)) by (apply Z.pow_pos_nonneg; lia).
    rewrite pow2_53 in Hmy.
    destruct (Z.eqb_spec m 9007199254740992) as [Hbig | Hsmall].
    + assert (HE1 : E + 1 <= ey).
      { destruct (Z.eq_dec ey E) as [-> | ]; [ | lia].
        rewrite Z.sub_diag in HmN. change (2 ^ 0) with 1 in HmN. lia. }
      assert (HE1' : (E + 1 <=? 971) = true) by (apply Z.leb_le; lia).
      rewrite HE1'. cbn [fin mag sign_of]. split; [ | split; [ | reflexivity]].
      * apply bounded_iff. rewrite pow2_53, pow2_52. lia.
      * rewrite Hmag.
        replace (2 ^ (E + 1 + 1074)) with (2 * 2 ^ (E + 1074))
          by (replace (E + 1 + 1074) with (E + 1074 + 1) by lia;
              rewrite (Z.pow_add_r 2 (E + 1074) 1) by lia; change (2 ^ 1) with 2; ring).
        nia.
    + assert (HE1' : (E <=? 971) = true) by (apply Z.leb_le; lia).
      rewrite HE1'. cbn [fin mag sign_of]. split; [ | split; [ | reflexivity]].
      * apply bounded_iff. rewrite pow2_53, pow2_52.
        rewrite Z2Pos.id by lia. lia.
      * rewrite Z2Pos.id by lia. rewrite Hmag. nia.
Qed.

Lemma mag_nonneg x : 0 <= mag x.
Proof.
  destruct x as [ | | | s m e]; cbn [mag]; lia.
Qed.

(** The rounded value against a representable bound below it. *)
Lemma rounded_lower sx m a b E y :
  0 <= a -> 0 < b -> -1074 <= E ->
  a / b <= m <= a / b + 1 -> (a mod b = 0 -> m = a / b) ->
  a / b < 2 ^ 53 -> (-1074 < E -> 2 ^ 52 <= a / b) ->
  fin y -> b * mag y <= a * 2 ^ (E + 1074) ->
  sign_of (rounded sx m E) = sx /\
  (rounded sx m E = S754_infinity sx \/
   (fin (rounded sx m E) /\ mag y <= mag (rounded sx m E))).
Proof.
  intros Ha Hb HE Hm Hex Hlt Hge Hy Hle.
  assert (Hq0 : 0 <= a / b) by (apply Z.div_pos; lia).
  assert (HpE : 0 < 2 ^ (E + 1074)) by (apply Z.pow_pos_nonneg; lia).
  rewrite pow2_53 in Hlt. rewrite pow2_52 in Hge.
  assert (Hkey : mag y <= m * 2 ^ (E + 1074)).
  { destruct y as [s | s | | s my ey]; cbn [fin mag] in *; try contradiction; try nia.
    apply bounded_iff in Hy. destruct Hy as (Hey & Hmy & Hmy').
    destruct (Z.le_gt_cases E ey) as [HEy | HEy].
    - assert (Hp : 2 ^ (ey + 1074) = 2 ^ (ey - E) * 2 ^ (E + 1074)).
      { rewrite <- Z.pow_add_r by lia. f_equal. lia. }
      rewrite Hp in *.
      assert (HN : 0 < 2 ^ (ey - E)) by (apply Z.pow_pos_nonneg; lia).
      set (N := Zpos my * 2 ^ (ey - E)) in *.
      assert (Hle' : b * N <= a).
      { apply (Z.mul_le_mono_pos_r _ _ (2 ^ (E + 1074))); [assumption | ].
        unfold N. lia. }
      assert (N <= a / b) by (apply Z.div_le_lower_bound; lia).
      unfold N in *. nia.
    - specialize (Hge ltac:(lia)).
      assert (Hp : 2 ^ (E + 1074) = 2 ^ (E - ey - 1) * (2 * 2 ^ (ey + 1074))).
      { replace (2 * 2 ^ (ey + 1074)) with (2 ^ (ey + 1074 + 1))
          by (rewrite (Z.pow_add_r 2 (ey + 1074) 1) by lia; change (2 ^ 1) with 2; ring).
        rewrite <- Z.pow_add_r by lia. f_equal. lia. }
      assert (Hq : 0 < 2 ^ (E - ey - 1)) by (apply Z.pow_pos_nonneg; lia).
      assert (Hy0 : 0 < 2 ^ (ey + 1074)) by (apply Z.pow_pos_nonneg; lia).
      rewrite pow2_53 in Hmy. rewrite Hp.
      assert (Zpos my * 2 ^ (ey + 1074) < 4503599627370496 * (2 * 2 ^ (ey + 1074))) by nia.
      assert (4503599627370496 * (2 * 2 ^ (ey + 1074)) <=
              4503599627370496 * (2 ^ (E - ey - 1) * (2 * 2 ^ (ey + 1074)))) by nia.
      nia. }
  assert (Hy0 := mag_nonneg y).
  unfold rounded.
  destruct (Z.eqb_spec m 0) as [Hz | Hnz].
  - cbn [fin mag sign_of]. split; [reflexivity | ]. right. split; [exact I | nia].
  - destruct (Z.eqb_spec m 9007199254740992) as [Hbig | Hsmall].
    + destruct (Z.leb_spec (E + 1) 971) as [HE1 | HE1]; cbn [fin mag sign_of];
        (split; [reflexivity | ]); [right | now left].
      split.
      * apply bounded_iff. rewrite pow2_53, pow2_52. lia.
      * replace (2 ^ (E + 1 + 1074)) with (2 * 2 ^ (E + 1074))
          by (replace (E + 1 + 1074) with (E + 1074 + 1) by lia;
              rewrite (Z.pow_add_r 2 (E + 1074) 1) by lia; change (2 ^ 1) with 2; ring).
        nia.
    + destruct (Z.leb_spec E 971) as [HE1 | HE1]; cbn [fin mag sign_of];
        (split; [reflexivity | ]); [right | now left].
      split.
      * apply bounded_iff. rewrite pow2_53, pow2_52.
        rewrite Z2Pos.id by lia. lia.
      * rewrite Z2Pos.id by lia. lia.
Qed.

Lemma fexp64_ge e : -1074 <= fexp 53 1024 e.
Proof. rewrite fexp64_eq. lia. Qed.

Lemma mul_le_cancel_r x y c : 0 < c -> x * c <= y * c -> x <= y.
Proof. intros Hc H. now apply (Z.mul_le_mono_pos_r _ _ c). Qed.

Section Round_aux.

Variables (sx : bool) (mx ex : Z) (lx : location) (a b : Z).
Hypothesis Ha : 0 <= a.
Hypothesis Hb : 0 < b.
Hypothesis Hd : describes (shr_record_of_loc mx lx) a b.
Hypothesis Hex : ex <= fexp 53 1024 (Zdigits2 mx + ex).
Hypothesis Hlow : -2148 <= ex.

Let r := binary_round_aux 53 1024 sx mx ex lx.

Lemma round_aux_upper y :
  fin y -> a * 2 ^ (ex + 2148) <= b * mag y * 2 ^ 1074 ->
  fin r /\ mag r <= mag y /\ sign_of r = sx.
Proof.
  intros Hy Hle.
  destruct (binary_round_aux_shape sx mx ex lx a b Ha Hb Hd Hex)
    as (m & Hm & Hexact & Hlt & Hge & Heq).
  set (E := fexp 53 1024 (Zdigits2 mx + ex)) in *.
  assert (HE := fexp64_ge (Zdigits2 mx + ex)). fold E in HE.
  assert (Hp : 0 < 2 ^ (E - ex)) by (apply Z.pow_pos_nonneg; lia).
  unfold r. rewrite Heq.
  apply (rounded_upper sx m a (b * 2 ^ (E - ex)) E y); try assumption; try lia.
  apply (mul_le_cancel_r _ _ (2 ^ (ex + 2148))); [apply Z.pow_pos_nonneg; lia | ].
  assert (E1 : 2 ^ (E + 1074) * 2 ^ (ex + 2148) = 2 ^ (ex + 2148) * 2 ^ (E + 1074)) by ring.
  assert (E2 : 2 ^ (E - ex) * 2 ^ (ex + 2148) = 2 ^ 1074 * 2 ^ (E + 1074)).
  { rewrite <- !Z.pow_add_r by lia. f_equal. lia. }
  assert (0 < 2 ^ (E + 1074)) by (apply Z.pow_pos_nonneg; lia).
  replace (a * 2 ^ (E + 1074) * 2 ^ (ex + 2148))
    with (a * 2 ^ (ex + 2148) * 2 ^ (E + 1074)) by ring.
  replace (b * 2 ^ (E - ex) * mag y * 2 ^ (ex + 2148))
    with (b * mag y * (2 ^ (E - ex) * 2 ^ (ex + 2148))) by ring.
  rewrite E2. nia.
Qed.

Lemma round_aux_lower y :
  fin y -> b * mag y * 2 ^ 1074 <= a * 2 ^ (ex + 2148) ->
  sign_of r = sx /\ (r = S754_infinity sx \/ (fin r /\ mag y <= mag r)).
Proof.
  intros Hy Hle.
  destruct (binary_round_aux_shape sx mx ex lx a b Ha Hb Hd Hex)
    as (m & Hm & Hexact & Hlt & Hge & Heq).
  set (E := fexp 53 1024 (Zdigits2 mx + ex)) in *.
  assert (HE := fexp64_ge (Zdigits2 mx + ex)). fold E in HE.
  assert (Hp : 0 < 2 ^ (E - ex)) by (apply Z.pow_pos_nonneg; lia).
  unfold r. rewrite Heq.
  apply (rounded_lower sx m a (b * 2 ^ (E - ex)) E y); try assumption; try lia.
  apply (mul_le_cancel_r _ _ (2 ^ (ex + 2148))); [apply Z.pow_pos_nonneg; lia | ].
  assert (E2 : 2 ^ (E - ex) * 2 ^ (ex + 2148) = 2 ^ 1074 * 2 ^ (E + 1074)).
  { rewrite <- !Z.pow_add_r by lia. f_equal. lia. }
  assert (0 < 2 ^ (E + 1074)) by (apply Z.pow_pos_nonneg; lia).
  replace (a * 2 ^ (E + 1074) * 2 ^ (ex + 2148))
    with (a * 2 ^ (ex + 2148) * 2 ^ (E + 1074)) by ring.
  replace (b * 2 ^ (E - ex) * mag y * 2 ^ (ex + 2148))
    with (b * mag y * (2 ^ (E - ex) * 2 ^ (ex + 2148))) by ring.
  rewrite E2. nia.
Qed.

(** Whatever the value, the result has the sign [sx] and is a zero, a
    valid finite float or an infinity. *)
Lemma round_aux_sign :
  sign_of r = sx /\ (r = S754_infinity sx \/ fin r).
Proof.
  destruct (round_aux_lower (S754_zero false) I) as [Hs [Hi | [Hf _]]];
    cbn [mag]; try lia; auto.
Qed.

End Round_aux.

Lemma fin_mul_pre mx ex my ey :
  bounded 53 1024 mx ex = true -> bounded 53 1024 my ey = true ->
  ex + ey <= fexp 53 1024 (Zdigits2 (Zpos (mx * my)) + (ex + ey)) /\ -2148 <= ex + ey.
Proof.
  intros Hx Hy. apply bounded_iff in Hx, Hy.
  destruct Hx as (Hex & Hmx & Hmx'), Hy as (Hey & Hmy & Hmy').
  split; [ | lia]. rewrite fexp64_eq. rewrite Pos2Z.inj_mul.
  rewrite pow2_52 in *.
  destruct (Z.eq_dec ex (-1074)) as [Hx0 | Hx0];
    destruct (Z.eq_dec ey (-1074)) as [Hy0 | Hy0]; try lia.
  - assert (52 + 1 <= Zdigits2 (Zpos mx * Zpos my)); [ | lia].
    apply Zdigits2_ge; try lia; rewrite pow2_52; nia.
  - assert (52 + 1 <= Zdigits2 (Zpos mx * Zpos my)); [ | lia].
    apply Zdigits2_ge; try lia; rewrite pow2_52; nia.
  - assert (52 + 1 <= Zdigits2 (Zpos mx * Zpos my)); [ | lia].
    apply Zdigits2_ge; try lia; rewrite pow2_52; nia.
Qed.

Lemma mag_mul_finite sx mx ex sy my ey :
  -1074 <= ex -> -1074 <= ey ->
  mag (S754_finite sx mx ex) * mag (S754_finite sy my ey)
  = Zpos (mx * my) * 2 ^ (ex + ey + 2148).
Proof.
  intros Hx Hy. cbn [mag]. rewrite Pos2Z.inj_mul.
  replace (ex + ey + 2148) with ((ex + 1074) + (ey + 1074)) by lia.
  rewrite (Z.pow_add_r 2 (ex + 1074) (ey + 1074)) by lia. ring.
Qed.

Lemma fmul_upper x y B :
  fin x -> fin y -> fin B -> mag x * mag y <= mag B * 2 ^ 1074 ->
  fin (SFmul 53 1024 x y) /\ mag (SFmul 53 1024 x y) <= mag B /\
  sign_of (SFmul 53 1024 x y) = xorb (sign_of x) (sign_of y).
Proof.
  intros Hx Hy HB Hle. assert (HB0 := mag_nonneg B).
  destruct x as [sx | sx | | sx mx ex], y as [sy | sy | | sy my ey];
    cbn [fin] in Hx, Hy; try contradiction;
    try (cbn [SFmul fin mag sign_of]; repeat split; lia).
  cbn [SFmul sign_of].
  destruct (fin_mul_pre mx ex my ey Hx Hy) as [Hpre Hlow].
  apply (round_aux_upper _ _ _ _ (Zpos (mx * my)) 1); try assumption; try lia.
  - now apply describes_exact.
  - apply bounded_iff in Hx, Hy. rewrite <- mag_mul_finite with (sx := sx) (sy := sy) by lia.
    lia.
Qed.

Lemma fmul_lower x y B :
  fin x -> fin y -> fin B -> mag B * 2 ^ 1074 <= mag x * mag y ->
  sign_of (SFmul 53 1024 x y) = xorb (sign_of x) (sign_of y) /\
  (SFmul 53 1024 x y = S754_infinity (xorb (sign_of x) (sign_of y)) \/
   (fin (SFmul 53 1024 x y) /\ mag B <= mag (SFmul 53 1024 x y))).
Proof.
  intros Hx Hy HB Hle. assert (HB0 := mag_nonneg B).
  destruct x as [sx | sx | | sx mx ex], y as [sy | sy | | sy my ey];
    cbn [fin] in Hx, Hy; try contradiction;
    try (cbn [SFmul fin mag sign_of] in *; split; [reflexivity | right; split; [exact I | nia]]).
  cbn [SFmul sign_of].
  destruct (fin_mul_pre mx ex my ey Hx Hy) as [Hpre Hlow].
  apply (round_aux_lower _ _ _ _ (Zpos (mx * my)) 1); try assumption; try lia.
  - now apply describes_exact.
  - apply bounded_iff in Hx, Hy. rewrite <- mag_mul_finite with (sx := sx) (sy := sy) by lia.
    lia.
Qed.

Lemma iter_xO_spec (d m : positive) : Zpos (Pos.iter xO m d) = Zpos m * 2 ^ Zpos d.
Proof.
  induction d as [ | d IH] using Pos.peano_ind.
  - cbn [Pos.iter]. rewrite Pos2Z.inj_xO. change (2 ^ 1) with 2. ring.
  - rewrite Pos.iter_succ, Pos2Z.inj_xO, IH, Pos2Z.inj_succ, Z.pow_succ_r by lia. ring.
Qed.

Lemma shl_align_spec mx ex ex' :
  let '(mz, ez) := shl_align mx ex ex' in
  ez = Z.min ex ex' /\ Zpos mz = Zpos mx * 2 ^ (ex - ez).
Proof.
  unfold shl_align. destruct (ex' - ex) as [ | d | d] eqn:Ed.
  - split; [lia | ]. rewrite Z.sub_diag. change (2 ^ 0) with 1. lia.
  - split; [lia | ]. rewrite Z.sub_diag. change (2 ^ 0) with 1. lia.
  - split; [lia | ]. rewrite iter_xO_spec. do 2 f_equal. lia.
Qed.

Lemma Zdigits2_shift m k : 0 < m -> 0 <= k -> Zdigits2 (m * 2 ^ k) = Zdigits2 m + k.
Proof.
  intros Hm Hk. destruct (Zdigits2_bounds m Hm) as [Hd [Hlo Hhi]].
  assert (Hp : 0 < 2 ^ k) by (apply Z.pow_pos_nonneg; lia).
  assert (Zdigits2 (m * 2 ^ k) <= Zdigits2 m + k).
  { apply Zdigits2_le; try nia. rewrite Z.pow_add_r by lia. nia. }
  assert (Zdigits2 m - 1 + k + 1 <= Zdigits2 (m * 2 ^ k)).
  { apply Zdigits2_ge; try nia. rewrite Z.pow_add_r by lia. nia. }
  lia.
Qed.

Section Binary_round.

Variables (sx : bool) (mx : positive) (ex : Z).
Hypothesis Hlow : -2148 <= ex.

Let r := binary_round 53 1024 sx mx ex.

Lemma binary_round_pre :
  exists mz ez,
    r = binary_round_aux 53 1024 sx (Zpos mz) ez loc_Exact /\
    ez <= fexp 53 1024 (Zdigits2 (Zpos mz) + ez) /\ -2148 <= ez /\
    Zpos mz * 2 ^ (ez + 2148) = Zpos mx * 2 ^ (ex + 2148).
Proof.
  unfold r, binary_round.
  assert (H := shl_align_spec mx ex (fexp 53 1024 (Zpos (digits2_pos mx) + ex))).
  change (Zpos (digits2_pos mx)) with (Zdigits2 (Zpos mx)) in *.
  assert (HE := fexp64_ge (Zdigits2 (Zpos mx) + ex)).
  set (E := fexp 53 1024 (Zdigits2 (Zpos mx) + ex)) in *.
  destruct (shl_align mx ex E) as [mz ez]. destruct H as [Hez Hmz].
  exists mz, ez. split; [reflexivity | ].
  assert (Hk : 0 <= ex - ez) by lia.
  split; [ | split; [lia | ]].
  - rewrite Hmz, Zdigits2_shift by lia.
    replace (Zdigits2 (Zpos mx) + (ex - ez) + ez) with (Zdigits2 (Zpos mx) + ex) by lia.
    fold E. lia.
  - rewrite Hmz, <- Z.mul_assoc, <- Z.pow_add_r by lia. do 2 f_equal. lia.
Qed.

Lemma binary_round_upper y :
  fin y -> Zpos mx * 2 ^ (ex + 2148) <= mag y * 2 ^ 1074 ->
  fin r /\ mag r <= mag y /\ sign_of r = sx.
Proof.
  intros Hy Hle. destruct binary_round_pre as (mz & ez & -> & Hpre & Hez & Hval).
  apply (round_aux_upper _ _ _ _ (Zpos mz) 1); try assumption; try lia.
  now apply describes_exact.
Qed.

Lemma binary_round_lower y :
  fin y -> mag y * 2 ^ 1074 <= Zpos mx * 2 ^ (ex + 2148) ->
  sign_of r = sx /\ (r = S754_infinity sx \/ (fin r /\ mag y <= mag r)).
Proof.
  intros Hy Hle. destruct binary_round_pre as (mz & ez & -> & Hpre & Hez & Hval).
  apply (round_aux_lower _ _ _ _ (Zpos mz) 1); try assumption; try lia.
  now apply describes_exact.
Qed.

End Binary_round.

Lemma pow2_2148 : 2 ^ 2148 = 2 ^ 1074 * 2 ^ 1074.
Proof. now rewrite <- Z.pow_add_r by lia. Qed.

Lemma of_Z_upper z y :
  0 <= z -> fin y -> z * 2 ^ 1074 <= mag y ->
  fin (of_Z z) /\ mag (of_Z z) <= mag y /\ sign_of (of_Z z) = false.
Proof.
  intros Hz Hy Hle. assert (Hy0 := mag_nonneg y).
  destruct z as [ | p | p]; try lia.
  - cbn. repeat split; lia.
  - unfold of_Z. cbn [binary_normalize].
    assert (0 < 2 ^ 1074) by (apply Z.pow_pos_nonneg; lia).
    apply binary_round_upper; try assumption; try lia;
      rewrite Z.add_0_l, pow2_2148; nia.
Qed.

Lemma of_Z_lower z y :
  0 <= z -> fin y -> mag y <= z * 2 ^ 1074 ->
  sign_of (of_Z z) = false /\
  (of_Z z = S754_infinity false \/ (fin (of_Z z) /\ mag y <= mag (of_Z z))).
Proof.
  intros Hz Hy Hle. assert (Hy0 := mag_nonneg y).
  destruct z as [ | p | p]; try lia.
  - cbn. split; [reflexivity | right; split; [exact I | lia]].
  - unfold of_Z. cbn [binary_normalize].
    assert (0 < 2 ^ 1074) by (apply Z.pow_pos_nonneg; lia).
    apply binary_round_lower; try assumption; try lia;
      rewrite Z.add_0_l, pow2_2148; nia.
Qed.

(** Two valid floats of the same sign and magnitude are the same. *)
Lemma fin_unique x y :
  fin x -> fin y -> sign_of x = sign_of y -> mag x = mag y -> x = y.
Proof.
  intros Hx Hy Hs Hm.
  destruct x as [sx | sx | | sx mx ex], y as [sy | sy | | sy my ey];
    cbn [fin sign_of mag] in *; try contradiction; subst.
  - reflexivity.
  - apply bounded_iff in Hy. assert (0 < 2 ^ (ey + 1074)) by (apply Z.pow_pos_nonneg; lia). nia.
  - apply bounded_iff in Hx. assert (0 < 2 ^ (ex + 1074)) by (apply Z.pow_pos_nonneg; lia). nia.
  - apply bounded_iff in Hx, Hy.
    destruct Hx as (Hex & Hmx & Hmx'), Hy as (Hey & Hmy & Hmy').
    rewrite pow2_53, pow2_52 in *.
    assert (Hlt : forall m1 e1 m2 e2,
      -1074 <= e1 -> e1 < e2 -> Zpos m1 < 9007199254740992 ->
      4503599627370496 <= Zpos m2 ->
      Zpos m1 * 2 ^ (e1 + 1074) = Zpos m2 * 2 ^ (e2 + 1074) -> False).
    { intros m1 e1 m2 e2 H1 H2 H3 H4 H5.
      assert (Hp : 2 ^ (e2 + 1074) = 2 ^ (e2 - e1 - 1) * (2 * 2 ^ (e1 + 1074))).
      { replace (2 * 2 ^ (e1 + 1074)) with (2 ^ (e1 + 1074 + 1))
          by (rewrite (Z.pow_add_r 2 (e1 + 1074) 1) by lia; change (2 ^ 1) with 2; ring).
        rewrite <- Z.pow_add_r by lia. f_equal. lia. }
      assert (0 < 2 ^ (e2 - e1 - 1)) by (apply Z.pow_pos_nonneg; lia).
      assert (0 < 2 ^ (e1 + 1074)) by (apply Z.pow_pos_nonneg; lia).
      rewrite Hp in H5. nia. }
    destruct (Z.lt_trichotomy ex ey) as [Hl | [He | Hg]].
    + exfalso. apply (Hlt mx ex my ey); try lia.
    + subst ey. assert (0 < 2 ^ (ex + 1074)) by (apply Z.pow_pos_nonneg; lia).
      assert (Zpos mx = Zpos my) by nia. congruence.
    + exfalso. apply (Hlt my ey mx ex); try lia.
Qed.

Lemma new_location_describes q r m2 :
  0 <= q -> 0 < m2 -> 0 <= r < m2 ->
  describes (shr_record_of_loc q (new_location m2 r)) (q * m2 + r) m2.
Proof.
  intros Hq Hm Hr.
  assert (Hdiv : (q * m2 + r) / m2 = q).
  { symmetry. apply (Z.div_unique _ _ _ r); lia. }
  assert (Hmod : (q * m2 + r) mod m2 = r).
  { symmetry. apply (Z.mod_unique _ _ q r); lia. }
  unfold describes. rewrite Hdiv, Hmod, shr_m_of_loc. split; [reflexivity | ].
  unfold new_location, new_location_even, new_location_odd.
  destruct (Z.even m2) eqn:Ev.
  - destruct (Z.eqb_spec r 0) as [-> | Hnz]; cbn [shr_record_of_loc shr_r shr_s].
    + split; zbool.
    + destruct (Z.compare_spec (2 * r) m2); cbn [shr_record_of_loc shr_r shr_s];
        split; zbool.
  - assert (Hodd : 2 * r <> m2).
    { intros <-. rewrite Z.even_mul in Ev. discriminate. }
    destruct (Z.eqb_spec r 0) as [-> | Hnz]; cbn [shr_record_of_loc shr_r shr_s].
    + split; zbool.
    + destruct (Z.compare_spec (2 * r + 1) m2); cbn [shr_record_of_loc shr_r shr_s];
        split; zbool.
Qed.

Lemma fexp64_mono x y : x <= y -> fexp 53 1024 x <= fexp 53 1024 y.
Proof. rewrite !fexp64_eq. lia. Qed.

Lemma Zdigits2_nonneg m : 0 <= m -> 0 <= Zdigits2 m.
Proof. destruct m; cbn [Zdigits2]; lia. Qed.

Lemma shift_match s m :
  0 <= s ->
  match s with
  | 0 => m
  | Zpos _ => Z.shiftl m s
  | Zneg _ => 0
  end = m * 2 ^ s.
Proof.
  intros Hs. destruct s as [ | p | p].
  - rewrite Z.pow_0_r. lia.
  - now rewrite Z.shiftl_mul_pow2 by lia.
  - lia.
Qed.

Lemma div_core_spec mx ex my ey :
  bounded 53 1024 mx ex = true -> bounded 53 1024 my ey = true ->
  exists q e' l s,
    SFdiv_core_binary 53 1024 (Zpos mx) ex (Zpos my) ey = (q, e', l) /\
    0 <= s /\ s + e' = ex - ey /\ -2148 <= e' /\
    describes (shr_record_of_loc q l) (Zpos mx * 2 ^ s) (Zpos my) /\
    e' <= fexp 53 1024 (Zdigits2 q + e').
Proof.
  intros Hx Hy. apply bounded_iff in Hx, Hy.
  unfold SFdiv_core_binary.
  destruct (Zdigits2_bounds (Zpos mx) ltac:(lia)) as [Hd1 [Hlo1 Hhi1]].
  destruct (Zdigits2_bounds (Zpos my) ltac:(lia)) as [Hd2 [Hlo2 Hhi2]].
  set (d1 := Zdigits2 (Zpos mx)) in *. set (d2 := Zdigits2 (Zpos my)) in *.
  assert (HF := fexp64_ge (d1 + ex - (d2 + ey))).
  set (F := fexp 53 1024 (d1 + ex - (d2 + ey))) in *.
  set (e' := Z.min F (ex - ey)).
  set (s := ex - ey - e').
  assert (Hs : 0 <= s) by (unfold s, e'; lia).
  assert (Hm' : match s with
                | 0 => Zpos mx
                | Zpos _ => Z.shiftl (Zpos mx) s
                | Zneg _ => 0
                end = Zpos mx * 2 ^ s).
  { apply shift_match. exact Hs. }
  rewrite Hm'. set (m' := Zpos mx * 2 ^ s) in *.
  assert (Hps : 0 < 2 ^ s) by (apply Z.pow_pos_nonneg; lia).
  assert (Hq := Z.div_eucl_eq m' (Zpos my) ltac:(lia)).
  assert (Hr := Z.mod_pos_bound m' (Zpos my) ltac:(lia)).
  unfold Z.modulo in Hr.
  assert (Hq0 : 0 <= m' / Zpos my) by (apply Z.div_pos; unfold m'; lia).
  unfold Z.div in Hq0.
  assert (Hqd : fst (Z.div_eucl m' (Zpos my)) = m' / Zpos my) by reflexivity.
  destruct (Z.div_eucl m' (Zpos my)) as [q r]. cbn [fst snd] in *.
  exists q, e', (new_location (Zpos my) r), s.
  split; [reflexivity | ]. split; [assumption | ]. split; [unfold s; lia | ].
  split; [unfold e'; lia | ]. split.
  - replace (Zpos mx * 2 ^ s) with (q * Zpos my + r) by (fold m'; lia).
    now apply new_location_describes.
  - apply Z.le_trans with F; [unfold e'; lia | ].
    apply fexp64_mono.
    assert (d1 - d2 + s <= Zdigits2 q); [ | unfold s in *; lia].
    destruct (Z.le_gt_cases (d1 - d2 + s) 0) as [Hle | Hgt].
    + assert (0 <= Zdigits2 q) by now apply Zdigits2_nonneg. lia.
    + assert (Hk : 2 ^ (d1 - d2 + s - 1) <= q).
      { rewrite Hqd. apply Z.div_le_lower_bound; [lia | ].
        assert (Hp : 2 ^ (d1 - 1) * 2 ^ s = 2 ^ (d1 - d2 + s - 1) * 2 ^ d2).
        { rewrite <- !Z.pow_add_r by lia. f_equal. lia. }
        assert (0 < 2 ^ (d1 - d2 + s - 1)) by (apply Z.pow_pos_nonneg; lia).
        unfold m'. nia. }
      assert (0 < 2 ^ (d1 - d2 + s - 1)) by (apply Z.pow_pos_nonneg; lia).
      assert (d1 - d2 + s - 1 + 1 <= Zdigits2 q) by (apply Zdigits2_ge; lia).
      lia.
Qed.

Lemma div_value_le mx ex my ey s e' B c :
  -1074 <= ex -> -1074 <= ey -> 0 <= s -> s + e' = ex - ey -> -2148 <= e' ->
  0 <= c ->
  (Zpos mx * 2 ^ (ex + 1074)) * 2 ^ 1074 <= B * (Zpos my * 2 ^ (ey + 1074)) ->
  Zpos mx * 2 ^ s * 2 ^ (e' + 2148) <= Zpos my * B * 2 ^ 1074.
Proof.
  intros Hex Hey Hs Hse He' _ Hle.
  apply (mul_le_cancel_r _ _ (2 ^ (ey + 1074))); [apply Z.pow_pos_nonneg; lia | ].
  assert (E1 : 2 ^ s * 2 ^ (e' + 2148) * 2 ^ (ey + 1074)
               = 2 ^ (ex + 1074) * 2 ^ 1074 * 2 ^ 1074).
  { rewrite <- !Z.pow_add_r by lia. f_equal. lia. }
  replace (Zpos mx * 2 ^ s * 2 ^ (e' + 2148) * 2 ^ (ey + 1074))
    with (Zpos mx * (2 ^ s * 2 ^ (e' + 2148) * 2 ^ (ey + 1074))) by ring.
  rewrite E1. assert (0 < 2 ^ 1074) by (apply Z.pow_pos_nonneg; lia). nia.
Qed.

Lemma div_value_ge mx ex my ey s e' B :
  -1074 <= ex -> -1074 <= ey -> 0 <= s -> s + e' = ex - ey -> -2148 <= e' ->
  B * (Zpos my * 2 ^ (ey + 1074)) <= (Zpos mx * 2 ^ (ex + 1074)) * 2 ^ 1074 ->
  Zpos my * B * 2 ^ 1074 <= Zpos mx * 2 ^ s * 2 ^ (e' + 2148).
Proof.
  intros Hex Hey Hs Hse He' Hle.
  apply (mul_le_cancel_r _ _ (2 ^ (ey + 1074))); [apply Z.pow_pos_nonneg; lia | ].
  assert (E1 : 2 ^ s * 2 ^ (e' + 2148) * 2 ^ (ey + 1074)
               = 2 ^ (ex + 1074) * 2 ^ 1074 * 2 ^ 1074).
  { rewrite <- !Z.pow_add_r by lia. f_equal. lia. }
  replace (Zpos mx * 2 ^ s * 2 ^ (e' + 2148) * 2 ^ (ey + 1074))
    with (Zpos mx * (2 ^ s * 2 ^ (e' + 2148) * 2 ^ (ey + 1074))) by ring.
  rewrite E1. assert (0 < 2 ^ 1074) by (apply Z.pow_pos_nonneg; lia). nia.
Qed.

Lemma fdiv_upper x y B :
  fin x -> fin y -> 0 < mag y -> fin B -> mag x * 2 ^ 1074 <= mag B * mag y ->
  fin (SFdiv 53 1024 x y) /\ mag (SFdiv 53 1024 x y) <= mag B /\
  sign_of (SFdiv 53 1024 x y) = xorb (sign_of x) (sign_of y).
Proof.
  intros Hx Hy Hy0 HB Hle. assert (HB0 := mag_nonneg B).
  destruct y as [sy | sy | | sy my ey]; cbn [fin mag] in Hy, Hy0; try contradiction; try lia.
  destruct x as [sx | sx | | sx mx ex]; cbn [fin] in Hx; try contradiction.
  - cbn [SFdiv fin mag sign_of]. repeat split; lia.
  - cbn [SFdiv sign_of].
    destruct (div_core_spec mx ex my ey Hx Hy) as (q & e' & l & s & -> & Hs & Hse & He' & Hd & Hpre).
    apply bounded_iff in Hx, Hy.
    assert (0 < 2 ^ s) by (apply Z.pow_pos_nonneg; lia).
    apply (round_aux_upper _ _ _ _ (Zpos mx * 2 ^ s) (Zpos my)); try assumption; try lia.
    cbn [mag] in Hle. apply (div_value_le mx ex my ey s e' (mag B) 0); lia.
Qed.

Lemma fdiv_lower x y B :
  fin x -> fin y -> 0 < mag y -> fin B -> mag B * mag y <= mag x * 2 ^ 1074 ->
  sign_of (SFdiv 53 1024 x y) = xorb (sign_of x) (sign_of y) /\
  (SFdiv 53 1024 x y = S754_infinity (xorb (sign_of x) (sign_of y)) \/
   (fin (SFdiv 53 1024 x y) /\ mag B <= mag (SFdiv 53 1024 x y))).
Proof.
  intros Hx Hy Hy0 HB Hle. assert (HB0 := mag_nonneg B).
  destruct y as [sy | sy | | sy my ey]; cbn [fin mag] in Hy, Hy0; try contradiction; try lia.
  destruct x as [sx | sx | | sx mx ex]; cbn [fin] in Hx; try contradiction.
  - cbn [SFdiv fin mag sign_of] in *. split; [reflexivity | right; split; [exact I | ]].
    assert (0 < 2 ^ (ey + 1074)) by lia. nia.
  - cbn [SFdiv sign_of].
    destruct (div_core_spec mx ex my ey Hx Hy) as (q & e' & l & s & -> & Hs & Hse & He' & Hd & Hpre).
    apply bounded_iff in Hx, Hy.
    assert (0 < 2 ^ s) by (apply Z.pow_pos_nonneg; lia).
    apply (round_aux_lower _ _ _ _ (Zpos mx * 2 ^ s) (Zpos my)); try assumption; try lia.
    cbn [mag] in Hle. apply (div_value_ge mx ex my ey s e' (mag B)); lia.
Qed.

Lemma shiftl_mag m e :
  -1074 <= e -> Z.shiftl (Zpos m) e = (Zpos m * 2 ^ (e + 1074)) / 2 ^ 1074.
Proof.
  intros He. assert (Hp : 0 < 2 ^ 1074) by (apply Z.pow_pos_nonneg; lia).
  destruct (Z.le_gt_cases 0 e) as [H | H].
  - rewrite Z.shiftl_mul_pow2 by lia. rewrite Z.pow_add_r by lia.
    rewrite Z.mul_assoc, Z.div_mul by lia. reflexivity.
  - rewrite Z.shiftl_div_pow2 by lia.
    replace (2 ^ 1074) with (2 ^ (- e) * 2 ^ (e + 1074))
      by (rewrite <- Z.pow_add_r by lia; f_equal; lia).
    rewrite Z.div_mul_cancel_r; try reflexivity.
    + apply Z.pow_nonzero; lia.
    + apply Z.pow_nonzero; lia.
Qed.

(** ** Consequences for the operations of the script *)


Lemma fin_mag_le_max x : fin x -> mag x <= mag max_float.
Proof.
  destruct x as [s | s | | s m e]; cbn [fin mag max_float]; try contradiction; try lia.
  intros H. apply bounded_iff in H. destruct H as (He & Hm & _).
  rewrite pow2_53 in Hm.
  assert (Hp : 2 ^ (971 + 1074) = 2 ^ (971 - e) * 2 ^ (e + 1074)).
  { rewrite <- Z.pow_add_r by lia. f_equal. lia. }
  rewrite Hp.
  assert (0 < 2 ^ (971 - e)) by (apply Z.pow_pos_nonneg; lia).
  assert (0 < 2 ^ (e + 1074)) by (apply Z.pow_pos_nonneg; lia).
  nia.
Qed.

Lemma fin_is_finite x : fin x -> is_finite x = true.
Proof. destruct x; cbn; intros H; try contradiction; reflexivity. Qed.

Lemma int_of_float_fin x :
  fin x -> sign_of x = false -> int_of_float x = Ok (mag x / 2 ^ 1074).
Proof.
  destruct x as [s | s | | s m e]; cbn [fin sign_of int_of_float mag];
    intros Hx Hs; try contradiction.
  - reflexivity.
  - subst s. apply bounded_iff in Hx. cbn [cond_Zopp].
    now rewrite shiftl_mag by lia.
Qed.

Lemma float_of_int_fin z : fin (of_Z z) -> float_of_int z = Ok (of_Z z).
Proof.
  unfold float_of_int. destruct (of_Z z); cbn [fin]; intros H;
    try contradiction; reflexivity.
Qed.

Lemma float_of_int_inv z f :
  0 <= z -> float_of_int z = Ok f -> f = of_Z z /\ fin f /\ sign_of f = false.
Proof.
  intros Hz H.
  destruct (of_Z_lower z (S754_zero false) Hz I) as [Hs [Hi | [Hf _]]];
    [cbn [mag]; lia | | ].
  - unfold float_of_int in H. rewrite Hi in H. discriminate.
  - rewrite (float_of_int_fin z Hf) in H. inversion H. subst f. auto.
Qed.

(** A finite result of rounding comes from a value below 2^1024. *)
Lemma lt_via_products p mz c d q t m n P :
  0 < q -> 0 < P -> mz < c * d -> mz * q = p * P -> d * q = t -> t <= m ->
  0 <= c -> c * m = n * P -> p < n.
Proof.
  intros Hq HP H1 H2 H3 H4 Hc H6.
  apply (Z.mul_lt_mono_pos_r P); [assumption | ].
  rewrite <- H2, <- H6.
  apply Z.lt_le_trans with (c * d * q).
  - now apply Z.mul_lt_mono_pos_r.
  - rewrite <- Z.mul_assoc, H3. now apply Z.mul_le_mono_nonneg_l.
Qed.

Lemma of_Z_fin_bound z : 0 <= z -> fin (of_Z z) -> z < 2 ^ 1024.
Proof.
  intros Hz Hf. destruct z as [ | p | p]; try lia.
  unfold of_Z in Hf. cbn [binary_normalize] in Hf.
  destruct (binary_round_pre false p 0 ltac:(lia)) as (mz & ez & Heq & Hpre & Hez & Hval).
  unfold prec, emax in Hf. rewrite Heq in Hf.
  destruct (binary_round_aux_shape false (Zpos mz) ez loc_Exact (Zpos mz) 1
              ltac:(lia) ltac:(lia) (describes_exact (Zpos mz) ltac:(lia)) Hpre)
    as (m & Hm & Hexact & Hlt & Hge & Hshape).
  set (E := fexp 53 1024 (Zdigits2 (Zpos mz) + ez)) in *.
  rewrite Hshape in Hf. rewrite Z.mul_1_l in *.
  assert (HEmin : -1074 <= E) by apply fexp64_ge.
  assert (Hp : 0 < 2 ^ (E - ez)) by (apply Z.pow_pos_nonneg; lia).
  assert (Hq0 : 0 <= Zpos mz / 2 ^ (E - ez)) by (apply Z.div_pos; lia).
  rewrite pow2_53 in Hlt. rewrite pow2_52 in Hge.
  assert (H1 : Zpos mz < 9007199254740992 * 2 ^ (E - ez)).
  { assert (Hx := Z.mul_succ_div_gt (Zpos mz) (2 ^ (E - ez)) Hp). nia. }
  assert (H2 : Zpos mz * 2 ^ (ez + 2148) = Zpos p * 2 ^ 2148) by (rewrite Hval; reflexivity).
  assert (H3 : 2 ^ (E - ez) * 2 ^ (ez + 2148) = 2 ^ (E + 2148))
    by (rewrite <- Z.pow_add_r by lia; f_equal; lia).
  assert (HQ : 0 < 2 ^ (ez + 2148)) by (apply Z.pow_pos_nonneg; lia).
  assert (HP : 0 < 2 ^ 2148) by (apply Z.pow_pos_nonneg; lia).
  assert (HE : E <= 971).
  { unfold rounded in Hf.
    destruct (Z.eqb_spec m 0) as [Hz0 | Hnz].
    - exfalso.
      assert (Hq : Zpos mz / 2 ^ (E - ez) = 0) by lia.
      assert (HE2 : E = -1074) by lia.
      assert (Hsmall : Zpos p < 1).
      { assert (G1 : Zpos mz < 1 * 2 ^ (E - ez)) by (apply Z.div_small_iff in Hq; lia).
        assert (G2 : 2 ^ (E + 2148) <= 2 ^ 2148) by (apply Z.pow_le_mono_r; lia).
        exact (lt_via_products (Zpos p) (Zpos mz) 1 (2 ^ (E - ez)) (2 ^ (ez + 2148))
                 (2 ^ (E + 2148)) (2 ^ 2148) 1 (2 ^ 2148) HQ HP G1 H2 H3 G2
                 ltac:(lia) eq_refl). }
      lia.
    - destruct (Z.eqb_spec m 9007199254740992).
      + destruct (Z.leb_spec (E + 1) 971); [lia | contradiction].
      + destruct (Z.leb_spec E 971); [lia | contradiction]. }
  assert (G2 : 2 ^ (E + 2148) <= 2 ^ (971 + 2148)) by (apply Z.pow_le_mono_r; lia).
  assert (G3 : 9007199254740992 * 2 ^ (971 + 2148) = 2 ^ 1024 * 2 ^ 2148).
  { rewrite <- pow2_53, <- !Z.pow_add_r by lia. reflexivity. }
  exact (lt_via_products (Zpos p) (Zpos mz) 9007199254740992 (2 ^ (E - ez))
           (2 ^ (ez + 2148)) (2 ^ (E + 2148)) (2 ^ (971 + 2148)) (2 ^ 1024) (2 ^ 2148)
           HQ HP H1 H2 H3 G2 ltac:(lia) G3).
Qed.

(** Integers below 2^53 convert exactly. *)
Lemma of_Z_exact k :
  0 <= k < 2 ^ 53 ->
  fin (of_Z k) /\ mag (of_Z k) = k * 2 ^ 1074 /\ sign_of (of_Z k) = false.
Proof.
  intros Hk. destruct k as [ | p | p]; try lia.
  { cbn. repeat split; lia. }
  unfold of_Z, prec, emax. cbn [binary_normalize]. unfold binary_round.
  assert (H := shl_align_spec p 0 (fexp 53 1024 (Zpos (digits2_pos p) + 0))).
  change (Zpos (digits2_pos p)) with (Zdigits2 (Zpos p)) in *.
  destruct (Zdigits2_bounds (Zpos p) ltac:(lia)) as [Hd [Hlo Hhi]].
  assert (Hd53 : Zdigits2 (Zpos p) <= 53) by (apply Zdigits2_le; lia).
  set (d := Zdigits2 (Zpos p)) in *.
  rewrite fexp64_eq in *.
  replace (Z.max (d + 0 - 53) (-1074)) with (d - 53) in * by lia.
  destruct (shl_align p 0 (d - 53)) as [mz ez]. destruct H as [Hez Hmz].
  assert (Hez' : ez = d - 53) by lia. clear Hez. subst ez.
  replace (0 - (d - 53)) with (53 - d) in Hmz by lia.
  assert (Hdz : Zdigits2 (Zpos mz) = 53).
  { rewrite Hmz, Zdigits2_shift by lia. fold d. lia. }
  assert (Hpre : d - 53 <= fexp 53 1024 (Zdigits2 (Zpos mz) + (d - 53)))
    by (rewrite fexp64_eq, Hdz; lia).
  destruct (binary_round_aux_shape false (Zpos mz) (d - 53) loc_Exact (Zpos mz) 1
              ltac:(lia) ltac:(lia) (describes_exact (Zpos mz) ltac:(lia)) Hpre)
    as (m & Hm & Hexact & Hlt & Hge & Hshape).
  rewrite Hshape. rewrite fexp64_eq, Hdz in *.
  replace (Z.max (53 + (d - 53) - 53) (-1074)) with (d - 53) in * by lia.
  rewrite Z.sub_diag, Z.mul_1_l in *. change (2 ^ 0) with 1 in *.
  rewrite Z.div_1_r in *. rewrite Z.mod_1_r in Hexact.
  specialize (Hexact eq_refl). subst m.
  rewrite pow2_53 in Hlt. unfold rounded.
  destruct (Z.eqb_spec (Zpos mz) 0); [lia | ].
  destruct (Z.eqb_spec (Zpos mz) 9007199254740992); [lia | ].
  destruct (Z.leb_spec (d - 53) 971); [ | lia].
  cbn [fin mag sign_of Z.to_pos]. split; [ | split; [ | reflexivity]].
  - apply bounded_iff. rewrite pow2_53.
    destruct (Zdigits2_bounds (Zpos mz) ltac:(lia)) as [_ [Hlo' _]].
    rewrite Hdz in Hlo'. change (53 - 1) with 52 in Hlo'. lia.
  - rewrite Hmz, <- Z.mul_assoc, <- Z.pow_add_r by lia. do 2 f_equal. lia.
Qed.

(** ** The relative error of rounding in the normal range *)

Lemma rounded_rel sx m a b E :
  0 <= a -> 0 < b -> -1074 < E ->
  a / b <= m <= a / b + 1 -> 2 ^ 52 <= a / b ->
  fin (rounded sx m E) ->
  4503599627370495 * (a * 2 ^ (E + 1074)) <= 4503599627370496 * (b * mag (rounded sx m E)) /\
  4503599627370496 * (b * mag (rounded sx m E)) <= 4503599627370497 * (a * 2 ^ (E + 1074)).
Proof.
  intros Ha Hb HE Hm Hge Hf. rewrite pow2_52 in Hge.
  assert (HP : 0 < 2 ^ (E + 1074)) by (apply Z.pow_pos_nonneg; lia).
  assert (Hlo : b * (a / b) <= a) by (apply Z.mul_div_le; lia).
  assert (Hhi : a < b * Z.succ (a / b)) by (apply Z.mul_succ_div_gt; lia).
  assert (Hmag : mag (rounded sx m E) = m * 2 ^ (E + 1074)).
  { unfold rounded in *.
    destruct (Z.eqb_spec m 0); [lia | ].
    destruct (Z.eqb_spec m 9007199254740992) as [-> | ].
    - destruct (Z.leb_spec (E + 1) 971); [ | contradiction]. cbn [mag].
      replace (E + 1 + 1074) with (E + 1074 + 1) by lia.
      rewrite (Z.pow_add_r 2 (E + 1074) 1) by lia. change (2 ^ 1) with 2. ring.
    - destruct (Z.leb_spec E 971); [ | contradiction]. cbn [mag].
      now rewrite Z2Pos.id by lia. }
  rewrite Hmag. set (P := 2 ^ (E + 1074)) in *. clearbody P.
  set (q := a / b) in *. clearbody q.
  assert (H1 : 4503599627370495 * a <= 4503599627370496 * (b * m)) by nia.
  assert (H2 : 4503599627370496 * (b * m) <= 4503599627370497 * a) by nia.
  split.
  - replace (4503599627370495 * (a * P)) with (4503599627370495 * a * P) by ring.
    replace (4503599627370496 * (b * (m * P))) with (4503599627370496 * (b * m) * P) by ring.
    apply Z.mul_le_mono_nonneg_r; lia.
  - replace (4503599627370497 * (a * P)) with (4503599627370497 * a * P) by ring.
    replace (4503599627370496 * (b * (m * P))) with (4503599627370496 * (b * m) * P) by ring.
    apply Z.mul_le_mono_nonneg_r; lia.
Qed.

Section Round_aux_rel.

Variables (sx : bool) (mx ex : Z) (lx : location) (a b : Z).
Hypothesis Ha : 0 <= a.
Hypothesis Hb : 0 < b.
Hypothesis Hd : describes (shr_record_of_loc mx lx) a b.
Hypothesis Hex : ex <= fexp 53 1024 (Zdigits2 mx + ex).
Hypothesis Hlow : -2148 <= ex.

Let r := binary_round_aux 53 1024 sx mx ex lx.

(** A value of at least 2^-1021 that rounds to a finite float is
    rounded with a relative error of at most 2^-52. *)
Lemma round_aux_rel :
  fin r -> 9007199254740992 * (b * 2 ^ 1074) <= a * 2 ^ (ex + 2148) ->
  4503599627370495 * (a * 2 ^ (ex + 2148)) <= 4503599627370496 * (b * mag r * 2 ^ 1074) /\
  4503599627370496 * (b * mag r * 2 ^ 1074) <= 4503599627370497 * (a * 2 ^ (ex + 2148)).
Proof.
  intros Hf Hnorm.
  destruct (binary_round_aux_shape sx mx ex lx a b Ha Hb Hd Hex)
    as (m & Hm & Hexact & Hlt & Hge & Heq).
  set (E := fexp 53 1024 (Zdigits2 mx + ex)) in *.
  assert (HE := fexp64_ge (Zdigits2 mx + ex)). fold E in HE.
  assert (Hp : 0 < 2 ^ (E - ex)) by (apply Z.pow_pos_nonneg; lia).
  assert (HQ : 0 < 2 ^ (ex + 2148)) by (apply Z.pow_pos_nonneg; lia).
  assert (HP : 0 < 2 ^ (E + 1074)) by (apply Z.pow_pos_nonneg; lia).
  assert (HU : 0 < 2 ^ 1074) by (apply Z.pow_pos_nonneg; lia).
  assert (E2 : 2 ^ (E - ex) * 2 ^ (ex + 2148) = 2 ^ 1074 * 2 ^ (E + 1074)).
  { rewrite <- !Z.pow_add_r by lia. f_equal. lia. }
  assert (Hb' : 0 < b * 2 ^ (E - ex)) by (apply Z.mul_pos_pos; assumption).
  assert (HEn : -1074 < E).
  { destruct (Z.eq_dec E (-1074)) as [HE0 | ]; [exfalso | lia].
    rewrite pow2_53 in Hlt.
    assert (Hx := Z.mul_succ_div_gt a (b * 2 ^ (E - ex)) Hb').
    assert (H1 : a < 9007199254740992 * (b * 2 ^ (E - ex))).
    { eapply Z.lt_le_trans; [exact Hx | ]. rewrite (Z.mul_comm 9007199254740992).
      apply Z.mul_le_mono_nonneg_l; lia. }
    assert (H2 : a * 2 ^ (ex + 2148) < 9007199254740992 * (b * 2 ^ (E - ex)) * 2 ^ (ex + 2148))
      by (apply Z.mul_lt_mono_pos_r; assumption).
    replace (9007199254740992 * (b * 2 ^ (E - ex)) * 2 ^ (ex + 2148))
      with (9007199254740992 * (b * (2 ^ (E - ex) * 2 ^ (ex + 2148)))) in H2 by ring.
    rewrite E2 in H2. replace (E + 1074) with 0 in H2 by lia.
    change (2 ^ 0) with 1 in H2. rewrite Z.mul_1_r in H2. lia. }
  unfold r in *. rewrite Heq in *.
  destruct (rounded_rel sx m a (b * 2 ^ (E - ex)) E Ha Hb' HEn Hm (Hge HEn) Hf) as [H1 H2].
  set (M := mag (rounded sx m E)) in *. clearbody M.
  assert (E3 : b * 2 ^ (E - ex) * M * 2 ^ (ex + 2148) = b * M * 2 ^ 1074 * 2 ^ (E + 1074)).
  { replace (b * 2 ^ (E - ex) * M * 2 ^ (ex + 2148))
      with (b * M * (2 ^ (E - ex) * 2 ^ (ex + 2148))) by ring.
    rewrite E2. ring. }
  split.
  - apply (mul_le_cancel_r _ _ (2 ^ (E + 1074)) HP).
    replace (4503599627370496 * (b * M * 2 ^ 1074) * 2 ^ (E + 1074))
      with (4503599627370496 * (b * M * 2 ^ 1074 * 2 ^ (E + 1074))) by ring.
    rewrite <- E3.
    replace (4503599627370495 * (a * 2 ^ (ex + 2148)) * 2 ^ (E + 1074))
      with (4503599627370495 * (a * 2 ^ (E + 1074)) * 2 ^ (ex + 2148)) by ring.
    replace (4503599627370496 * (b * 2 ^ (E - ex) * M * 2 ^ (ex + 2148)))
      with (4503599627370496 * (b * 2 ^ (E - ex) * M) * 2 ^ (ex + 2148)) by ring.
    apply Z.mul_le_mono_nonneg_r; lia.
  - apply (mul_le_cancel_r _ _ (2 ^ (E + 1074)) HP).
    replace (4503599627370496 * (b * M * 2 ^ 1074) * 2 ^ (E + 1074))
      with (4503599627370496 * (b * M * 2 ^ 1074 * 2 ^ (E + 1074))) by ring.
    rewrite <- E3.
    replace (4503599627370497 * (a * 2 ^ (ex + 2148)) * 2 ^ (E + 1074))
      with (4503599627370497 * (a * 2 ^ (E + 1074)) * 2 ^ (ex + 2148)) by ring.
    replace (4503599627370496 * (b * 2 ^ (E - ex) * M * 2 ^ (ex + 2148)))
      with (4503599627370496 * (b * 2 ^ (E - ex) * M) * 2 ^ (ex + 2148)) by ring.
    apply Z.mul_le_mono_nonneg_r; lia.
Qed.

End Round_aux_rel.

Lemma fmul_rel x y :
  fin x -> fin y -> fin (SFmul 53 1024 x y) ->
  9007199254740992 * 2 ^ 1074 <= mag x * mag y ->
  4503599627370495 * (mag x * mag y)
    <= 4503599627370496 * (mag (SFmul 53 1024 x y) * 2 ^ 1074) /\
  4503599627370496 * (mag (SFmul 53 1024 x y) * 2 ^ 1074)
    <= 4503599627370497 * (mag x * mag y).
Proof.
  intros Hx Hy Hf Hn.
  assert (HU : 0 < 2 ^ 1074) by (apply Z.pow_pos_nonneg; lia).
  destruct x as [sx | sx | | sx mx ex], y as [sy | sy | | sy my ey];
    cbn [fin] in Hx, Hy; try contradiction;
    try (cbn [mag] in Hn; rewrite ?Z.mul_0_l, ?Z.mul_0_r in Hn; lia).
  destruct (fin_mul_pre mx ex my ey Hx Hy) as [Hpre Hlow].
  assert (Hx' := Hx). assert (Hy' := Hy). apply bounded_iff in Hx', Hy'.
  rewrite (mag_mul_finite sx mx ex sy my ey) in * by lia.
  cbn [SFmul] in *.
  destruct (round_aux_rel (xorb sx sy) (Zpos (mx * my)) (ex + ey) loc_Exact
              (Zpos (mx * my)) 1 ltac:(lia) ltac:(lia)
              (describes_exact (Zpos (mx * my)) ltac:(lia)) Hpre Hlow Hf) as [H1 H2].
  { rewrite Z.mul_1_l. exact Hn. }
  rewrite !Z.mul_1_l in H1, H2. split; assumption.
Qed.

Section Binary_round_rel.

Variables (sx : bool) (mx : positive) (ex : Z).
Hypothesis Hlow : -2148 <= ex.

Let r := binary_round 53 1024 sx mx ex.

Lemma binary_round_rel :
  fin r -> 9007199254740992 * 2 ^ 1074 <= Zpos mx * 2 ^ (ex + 2148) ->
  4503599627370495 * (Zpos mx * 2 ^ (ex + 2148)) <= 4503599627370496 * (mag r * 2 ^ 1074) /\
  4503599627370496 * (mag r * 2 ^ 1074) <= 4503599627370497 * (Zpos mx * 2 ^ (ex + 2148)).
Proof.
  intros Hf Hn. unfold r in *.
  destruct (binary_round_pre sx mx ex Hlow) as (mz & ez & Heq & Hpre & Hez & Hval).
  rewrite Heq in *. rewrite <- Hval in *.
  destruct (round_aux_rel sx (Zpos mz) ez loc_Exact (Zpos mz) 1 ltac:(lia) ltac:(lia)
              (describes_exact (Zpos mz) ltac:(lia)) Hpre Hez Hf) as [H1 H2].
  { rewrite Z.mul_1_l. exact Hn. }
  rewrite !Z.mul_1_l in H1, H2. split; assumption.
Qed.

End Binary_round_rel.

(** ** Addition of non-negative floats *)

Lemma fadd_finite_nonneg mx ex my ey :
  bounded 53 1024 mx ex = true -> bounded 53 1024 my ey = true ->
  exists mz ez,
    SFadd 53 1024 (S754_finite false mx ex) (S754_finite false my ey)
    = binary_round 53 1024 false mz ez /\
    -1074 <= ez /\
    Zpos mz * 2 ^ (ez + 1074)
    = mag (S754_finite false mx ex) + mag (S754_finite false my ey).
Proof.
  intros Hx Hy. apply bounded_iff in Hx, Hy. cbn [SFadd cond_Zopp mag].
  set (ez := Z.min ex ey).
  assert (H1 := shl_align_spec mx ex ez).
  assert (H2 := shl_align_spec my ey ez).
  destruct (shl_align mx ex ez) as [m1 e1].
  destruct (shl_align my ey ez) as [m2 e2].
  destruct H1 as [He1 Hm1], H2 as [He2 Hm2]. cbn [fst].
  assert (E1 : e1 = ez) by (unfold ez in *; lia).
  assert (E2 : e2 = ez) by (unfold ez in *; lia).
  rewrite E1 in Hm1. rewrite E2 in Hm2.
  assert (Hez : -1074 <= ez) by (unfold ez; lia).
  assert (Hex' : ez <= ex) by (unfold ez; lia).
  assert (Hey' : ez <= ey) by (unfold ez; lia).
  exists (m1 + m2)%positive, ez. split; [reflexivity | ]. split; [exact Hez | ].
  assert (P1 : 2 ^ (ex - ez) * 2 ^ (ez + 1074) = 2 ^ (ex + 1074))
    by (rewrite <- Z.pow_add_r by lia; f_equal; lia).
  assert (P2 : 2 ^ (ey - ez) * 2 ^ (ez + 1074) = 2 ^ (ey + 1074))
    by (rewrite <- Z.pow_add_r by lia; f_equal; lia).
  rewrite Pos2Z.inj_add, Z.mul_add_distr_r, Hm1, Hm2.
  rewrite <- (Z.mul_assoc (Zpos mx)), <- (Z.mul_assoc (Zpos my)), P1, P2.
  reflexivity.
Qed.

Lemma pow2_shift_1074 ez : -1074 <= ez -> 2 ^ (ez + 2148) = 2 ^ (ez + 1074) * 2 ^ 1074.
Proof. intros H. rewrite <- Z.pow_add_r by lia. f_equal. lia. Qed.

Lemma fadd_upper x y B :
  fin x -> fin y -> sign_of x = false -> sign_of y = false ->
  fin B -> mag x + mag y <= mag B ->
  fin (SFadd 53 1024 x y) /\ mag (SFadd 53 1024 x y) <= mag B /\
  sign_of (SFadd 53 1024 x y) = false.
Proof.
  intros Hx Hy Sx Sy HB Hle.
  assert (Hx0 := mag_nonneg x). assert (Hy0 := mag_nonneg y).
  destruct x as [sx | sx | | sx mx ex], y as [sy | sy | | sy my ey];
    cbn [fin sign_of] in Hx, Hy, Sx, Sy; try contradiction; subst;
    try (cbn [SFadd fin mag sign_of] in *; repeat split; first [assumption | lia]).
  destruct (fadd_finite_nonneg mx ex my ey Hx Hy) as (mz & ez & -> & Hez & Hval).
  apply binary_round_upper; try assumption; try lia.
  rewrite pow2_shift_1074, Z.mul_assoc, Hval by lia.
  apply Z.mul_le_mono_nonneg_r; [apply Z.pow_nonneg; lia | exact Hle].
Qed.

Lemma fadd_lower x y B :
  fin x -> fin y -> sign_of x = false -> sign_of y = false ->
  fin B -> fin (SFadd 53 1024 x y) -> mag B <= mag x + mag y ->
  mag B <= mag (SFadd 53 1024 x y).
Proof.
  intros Hx Hy Sx Sy HB Hf Hle.
  assert (Hx0 := mag_nonneg x). assert (Hy0 := mag_nonneg y).
  destruct x as [sx | sx | | sx mx ex], y as [sy | sy | | sy my ey];
    cbn [fin sign_of] in Hx, Hy, Sx, Sy; try contradiction; subst;
    try (cbn [SFadd fin mag sign_of] in *; lia).
  destruct (fadd_finite_nonneg mx ex my ey Hx Hy) as (mz & ez & Heq & Hez & Hval).
  rewrite Heq in *.
  destruct (binary_round_lower false mz ez ltac:(lia) B HB) as [_ [Hi | [_ H]]].
  - rewrite pow2_shift_1074, Z.mul_assoc, Hval by lia.
    apply Z.mul_le_mono_nonneg_r; [apply Z.pow_nonneg; lia | exact Hle].
  - rewrite Hi in Hf. contradiction.
  - exact H.
Qed.

Lemma fadd_rel x y :
  fin x -> fin y -> sign_of x = false -> sign_of y = false ->
  fin (SFadd 53 1024 x y) -> 9007199254740992 <= mag x + mag y ->
  4503599627370495 * (mag x + mag y) <= 4503599627370496 * mag (SFadd 53 1024 x y) /\
  4503599627370496 * mag (SFadd 53 1024 x y) <= 4503599627370497 * (mag x + mag y).
Proof.
  intros Hx Hy Sx Sy Hf Hn.
  assert (Hx0 := mag_nonneg x). assert (Hy0 := mag_nonneg y).
  destruct x as [sx | sx | | sx mx ex], y as [sy | sy | | sy my ey];
    cbn [fin sign_of] in Hx, Hy, Sx, Sy; try contradiction; subst;
    try (cbn [SFadd fin mag sign_of] in *; lia).
  destruct (fadd_finite_nonneg mx ex my ey Hx Hy) as (mz & ez & Heq & Hez & Hval).
  rewrite Heq in *.
  assert (HU : 0 < 2 ^ 1074) by (apply Z.pow_pos_nonneg; lia).
  set (V := mag (S754_finite false mx ex) + mag (S754_finite false my ey)) in *.
  assert (EV : Zpos mz * 2 ^ (ez + 2148) = V * 2 ^ 1074)
    by (rewrite pow2_shift_1074, Z.mul_assoc, Hval by lia; reflexivity).
  destruct (binary_round_rel false mz ez ltac:(lia) Hf) as [H1 H2].
  { rewrite EV. apply Z.mul_le_mono_nonneg_r; [lia | exact Hn]. }
  rewrite EV in H1, H2. set (M := mag (binary_round 53 1024 false mz ez)) in *.
  clearbody M V. set (U := 2 ^ 1074) in *. clearbody U.
  split; apply (mul_le_cancel_r _ _ U HU); lia.
Qed.

(** ** Comparison *)

Lemma fltb_mag x y :
  fin x -> fin y -> sign_of x = false -> sign_of y = false ->
  mag x < mag y -> SFltb x y = true.
Proof.
  intros Hx Hy Sx Sy Hlt. assert (Hx0 := mag_nonneg x).
  destruct x as [sx | sx | | sx mx ex], y as [sy | sy | | sy my ey];
    cbn [fin sign_of] in Hx, Hy, Sx, Sy; try contradiction; subst;
    cbn [mag] in Hlt; try lia; try reflexivity.
  apply bounded_iff in Hx, Hy.
  destruct Hx as (Hex & Hmx & Hmx'), Hy as (Hey & Hmy & Hmy').
  rewrite pow2_53, pow2_52 in *.
  unfold SFltb, SFcompare.
  destruct (Z.compare_spec ex ey) as [He | He | He].
  - subst ey. assert (0 < 2 ^ (ex + 1074)) by (apply Z.pow_pos_nonneg; lia).
    assert (Hm : (mx < my)%positive) by (apply Pos2Z.pos_lt_pos; nia).
    rewrite Pos.compare_cont_spec. cbn [Pos.switch_Eq].
    now rewrite (proj2 (Pos.compare_lt_iff mx my) Hm).
  - reflexivity.
  - exfalso.
    assert (Hp : 2 ^ (ex + 1074) = 2 ^ (ex - ey - 1) * (2 * 2 ^ (ey + 1074))).
    { replace (2 * 2 ^ (ey + 1074)) with (2 ^ (ey + 1074 + 1))
        by (rewrite (Z.pow_add_r 2 (ey + 1074) 1) by lia; change (2 ^ 1) with 2; ring).
      rewrite <- Z.pow_add_r by lia. f_equal. lia. }
    assert (0 < 2 ^ (ex - ey - 1)) by (apply Z.pow_pos_nonneg; lia).
    assert (0 < 2 ^ (ey + 1074)) by (apply Z.pow_pos_nonneg; lia).
    rewrite Hp in Hlt. specialize (Hmx' ltac:(lia)). nia.
Qed.

(** * The scale factor and the scaled measurements *)

Ltac closed_le := apply Z.leb_le; vm_compute; reflexivity.

Lemma fi_exact k :
  0 <= k < 2 ^ 53 ->
  fin (fi k) /\ mag (fi k) = k * 2 ^ 1074 /\ sign_of (fi k) = false.
Proof. apply of_Z_exact. Qed.

Lemma fin_not_infinity x s : fin x -> x <> S754_infinity s.
Proof. intros H ->. exact H. Qed.

Lemma scale_of_inv width s :
  0 < width -> scale_of width = Ok s ->
  s = of_Z width ⊘ fi 1000 /\ fin (of_Z width) /\
  fin s /\ sign_of s = false /\ mag s <= mag max_float_512.
Proof.
  intros Hw H. unfold scale_of in H.
  destruct (float_of_int width) as [fw | e] eqn:Hfw; cbn [bind] in H; [ | discriminate].
  inversion H. subst s. clear H.
  destruct (float_of_int_inv width fw ltac:(lia) Hfw) as (-> & Hfin & Hsign).
  destruct (fi_exact 1000 ltac:(rewrite pow2_53; lia)) as (F1 & M1 & S1).
  assert (Hmax := fin_mag_le_max _ Hfin).
  assert (HM : mag max_float = 512 * mag max_float_512) by (vm_compute; reflexivity).
  assert (H512 : fin max_float_512) by reflexivity.
  destruct (fdiv_upper (of_Z width) (fi 1000) max_float_512 Hfin F1 ltac:(lia) H512)
    as (Hf & Hm & Hs).
  { rewrite M1. assert (H0 := mag_nonneg max_float_512). lia. }
  unfold fdiv_ieee, prec, emax. rewrite Hsign, S1 in Hs. auto.
Qed.

Lemma scale_lower width s k B :
  0 < width -> scale_of width = Ok s ->
  0 <= k < 2 ^ 53 -> k <= width -> fin B -> 1000 * mag B <= k * 2 ^ 1074 ->
  mag B <= mag s.
Proof.
  intros Hw Hs Hk Hkw HB Hle.
  destruct (scale_of_inv width s Hw Hs) as (-> & Hfw & Hfs & Hsign & _).
  destruct (fi_exact 1000 ltac:(rewrite pow2_53; lia)) as (F1 & M1 & S1).
  destruct (of_Z_exact k Hk) as (Fk & Mk & Sk).
  destruct (of_Z_lower width (of_Z k) ltac:(lia) Fk) as [_ [Hi | [_ Hge]]].
  { rewrite Mk. nia. }
  { exfalso. now apply (fin_not_infinity _ false Hfw). }
  assert (HB0 := mag_nonneg B).
  destruct (fdiv_lower (of_Z width) (fi 1000) B Hfw F1 ltac:(lia) HB) as [_ [Hi | [_ H]]].
  { rewrite M1. rewrite Mk in Hge. nia. }
  { exfalso. unfold fdiv_ieee, prec, emax in Hfs. rewrite Hi in Hfs. exact Hfs. }
  exact H.
Qed.

Lemma scale_upper width s k B :
  0 < width -> scale_of width = Ok s ->
  width <= k < 2 ^ 53 -> fin B -> k * 2 ^ 1074 <= 1000 * mag B ->
  mag s <= mag B.
Proof.
  intros Hw Hs Hk HB Hle.
  destruct (scale_of_inv width s Hw Hs) as (-> & Hfw & Hfs & Hsign & _).
  destruct (fi_exact 1000 ltac:(rewrite pow2_53; lia)) as (F1 & M1 & S1).
  destruct (of_Z_exact k ltac:(lia)) as (Fk & Mk & Sk).
  destruct (of_Z_upper width (of_Z k) ltac:(lia) Fk) as (_ & Hle' & _).
  { rewrite Mk. nia. }
  destruct (fdiv_upper (of_Z width) (fi 1000) B Hfw F1 ltac:(lia) HB) as (_ & H & _).
  { rewrite M1. rewrite Mk in Hle'. nia. }
  exact H.
Qed.

Lemma scale_of_good width s : 0 < width -> scale_of width = Ok s -> good_scale s.
Proof. intros Hw H. destruct (scale_of_inv width s Hw H) as (_ & _ & ? & ? & ?). now repeat split. Qed.

(** [int(k * scale)] for a non-negative literal [k <= 512]: it does
    not raise and is the integer part of the float product. *)
Lemma scaled_ok k s :
  fin k -> sign_of k = false -> mag k <= 512 * 2 ^ 1074 -> good_scale s ->
  fin (k ⊗ s) /\ sign_of (k ⊗ s) = false /\
  scaled k s = Ok (floor_float (k ⊗ s)) /\ 0 <= floor_float (k ⊗ s).
Proof.
  intros Hk Sk Mk (Hs & Ss & Ms).
  assert (HM : mag max_float = 512 * mag max_float_512) by (vm_compute; reflexivity).
  assert (Hk0 := mag_nonneg k). assert (Hs0 := mag_nonneg s).
  destruct (fmul_upper k s max_float Hk Hs ltac:(reflexivity)) as (Hf & Hm & Hsg).
  { rewrite HM. nia. }
  rewrite Sk, Ss in Hsg. cbn [xorb] in Hsg.
  unfold fmul, prec, emax, scaled.
  split; [assumption | ]. split; [assumption | ]. split.
  - now apply int_of_float_fin.
  - unfold floor_float. apply Z.div_pos; [apply mag_nonneg | lia].
Qed.

Lemma scaled_ge k s B :
  fin k -> sign_of k = false -> mag k <= 512 * 2 ^ 1074 -> good_scale s ->
  fin B -> mag B * 2 ^ 1074 <= mag k * mag s ->
  floor_float B <= floor_float (k ⊗ s).
Proof.
  intros Hk Sk Mk Hgs HB Hle.
  destruct (scaled_ok k s Hk Sk Mk Hgs) as (Hf & _).
  destruct Hgs as (Hs & Ss & Ms).
  destruct (fmul_lower k s B Hk Hs HB Hle) as [_ [Hi | [_ H]]].
  - exfalso. unfold fmul, prec, emax in Hf. rewrite Hi in Hf. exact Hf.
  - unfold floor_float. apply Z.div_le_mono; [lia | exact H].
Qed.

Lemma scaled_le k s B :
  fin k -> sign_of k = false -> good_scale s ->
  fin B -> mag k * mag s <= mag B * 2 ^ 1074 ->
  floor_float (k ⊗ s) <= floor_float B.
Proof.
  intros Hk Sk (Hs & Ss & Ms) HB Hle.
  destruct (fmul_upper k s B Hk Hs HB Hle) as (_ & H & _).
  unfold floor_float. apply Z.div_le_mono; [lia | exact H].
Qed.

Lemma scale_literal_fi k : 0 <= k <= 512 -> scale_literal (fi k).
Proof.
  intros Hk. destruct (fi_exact k ltac:(rewrite pow2_53; lia)) as (F & M & S).
  repeat split; try assumption. rewrite M. nia.
Qed.

Lemma scale_literal_1_5 : scale_literal f_1_5.
Proof. repeat split; try reflexivity. closed_le. Qed.

Lemma scale_literal_3_2 : scale_literal f_3_2.
Proof. repeat split; try reflexivity. closed_le. Qed.

(** * The grid-line stage *)

Lemma grid_spacing_spec width s :
  0 < width -> scale_of width = Ok s ->
  exists spacing,
    grid_spacing s = Ok spacing /\ 0 <= spacing /\ (spacing = 0 <-> width < 15).
Proof.
  intros Hw Hs. assert (Hg := scale_of_good width s Hw Hs).
  destruct (scale_literal_fi 70 ltac:(lia)) as (F70 & S70 & M70).
  destruct (fi_exact 70 ltac:(rewrite pow2_53; lia)) as (_ & E70 & _).
  destruct (scaled_ok (fi 70) s F70 S70 M70 Hg) as (Hf & Hsg & Heq & Hnn).
  exists (floor_float (fi 70 ⊗ s)). split; [exact Heq | ]. split; [exact Hnn | ].
  destruct (Z.lt_ge_cases width 15) as [Hlt | Hge]; split; try lia; intros Hz.
  - (* below 15 the product stays below 1 *)
    assert (Hu : mag s <= mag f_0_0141).
    { apply (scale_upper width s 14 f_0_0141 Hw Hs);
        [rewrite pow2_53; lia | reflexivity | closed_le]. }
    assert (H1 : 70 * mag f_0_0141 <= mag f_0_99) by closed_le.
    assert (H0 : floor_float f_0_99 = 0) by (vm_compute; reflexivity).
    assert (Hle : floor_float (fi 70 ⊗ s) <= floor_float f_0_99).
    { apply scaled_le; try assumption; try reflexivity. rewrite E70.
      assert (0 < 2 ^ 1074) by (apply Z.pow_pos_nonneg; lia). nia. }
    lia.
  - (* from 15 on the product is at least 1 *)
    exfalso.
    assert (Hl : mag f_0_0145 <= mag s).
    { apply (scale_lower width s 15 f_0_0145 Hw Hs);
        [rewrite pow2_53; lia | lia | reflexivity | closed_le]. }
    assert (H1 : 2 ^ 1074 <= 70 * mag f_0_0145) by closed_le.
    assert (H0 : floor_float (fi 1) = 1) by (vm_compute; reflexivity).
    assert (Hle : floor_float (fi 1) <= floor_float (fi 70 ⊗ s)).
    { destruct (fi_exact 1 ltac:(rewrite pow2_53; lia)) as (F1 & E1 & _).
      apply scaled_ge; try assumption. rewrite E1, E70.
      assert (0 < 2 ^ 1074) by (apply Z.pow_pos_nonneg; lia). nia. }
    lia.
Qed.

(** C9. For every positive width and height whose scale factor has been
    computed, the grid-line stage does not raise: the spacing
    [int(70 * scale)] is zero exactly when [width < 15], in that case
    the guard skips the two loops and no grid line is drawn, and
    otherwise both [range] calls get a positive step. *)
Theorem grid_lines_never_raise (width height : Z) (s : float) :
  0 < width -> 0 < height -> scale_of width = Ok s ->
  exists spacing cmds,
    grid_spacing s = Ok spacing /\
    grid_lines width height s = Ok cmds /\
    (spacing = 0 <-> width < 15) /\
    (width < 15 -> cmds = []) /\
    (15 <= width ->
     0 < spacing /\
     py_range 0 width spacing = Ok (range3 0 width spacing) /\
     py_range 0 height spacing = Ok (range3 0 height spacing) /\
     cmds =
       map (fun x => Line [(Int x, Int 0); (Int x, Int height)] (RGB 35 55 68) 1)
           (range3 0 width spacing)
       ++ map (fun y => Line [(Int 0, Int y); (Int width, Int y)] (RGB 35 55 68) 1)
              (range3 0 height spacing)).
Proof.
  intros Hw Hh Hs.
  destruct (grid_spacing_spec width s Hw Hs) as (spacing & Heq & Hnn & Hiff).
  unfold grid_lines. rewrite Heq. cbn [bind].
  destruct (Z.ltb_spec 0 spacing) as [Hpos | Hzero].
  - assert (Hr : forall stop, py_range 0 stop spacing = Ok (range3 0 stop spacing)).
    { intros stop. unfold py_range. destruct (Z.eqb_spec spacing 0); [lia | reflexivity]. }
    rewrite !Hr. cbn [bind].
    eexists _, _. split; [reflexivity | ]. split; [reflexivity | ].
    split; [exact Hiff | ]. split; [lia | ]. intros _. auto.
  - exists spacing, []. split; [reflexivity | ]. split; [reflexivity | ].
    split; [exact Hiff | ]. split; [reflexivity | ]. lia.
Qed.

Lemma grid_lines_never_raise_witness :
  exists spacing cmds,
    grid_spacing (fi 250 ⊘ fi 1000) = Ok spacing /\
    grid_lines 250 175 (fi 250 ⊘ fi 1000) = Ok cmds /\
    (spacing = 0 <-> 250 < 15) /\
    (250 < 15 -> cmds = []) /\
    (15 <= 250 ->
     0 < spacing /\
     py_range 0 250 spacing = Ok (range3 0 250 spacing) /\
     py_range 0 175 spacing = Ok (range3 0 175 spacing) /\
     cmds =
       map (fun x => Line [(Int x, Int 0); (Int x, Int 175)] (RGB 35 55 68) 1)
           (range3 0 250 spacing)
       ++ map (fun y => Line [(Int 0, Int y); (Int 250, Int y)] (RGB 35 55 68) 1)
              (range3 0 175 spacing)).
Proof.
  apply (grid_lines_never_raise 250 175); [lia | lia | reflexivity].
Defined.

(** * Integer parts and heights *)

Lemma floor_float_nonneg x : 0 <= floor_float x.
Proof. unfold floor_float. apply Z.div_pos; [apply mag_nonneg | lia]. Qed.

(** The integer part of a non-negative float converts back to a float
    that is not above it. *)
Lemma of_Z_floor x :
  fin x ->
  fin (of_Z (floor_float x)) /\ mag (of_Z (floor_float x)) <= mag x /\
  sign_of (of_Z (floor_float x)) = false /\
  float_of_int (floor_float x) = Ok (of_Z (floor_float x)).
Proof.
  intros Hx. assert (H0 := floor_float_nonneg x).
  destruct (of_Z_upper (floor_float x) x H0 Hx) as (Hf & Hm & Hs).
  { unfold floor_float. rewrite Z.mul_comm. apply Z.mul_div_le. lia. }
  repeat split; try assumption. now apply float_of_int_fin.
Qed.

(** [int(height * k)] for a literal [0 <= k <= 1]. *)
Lemma at_height_ok height fh k :
  0 <= height -> float_of_int height = Ok fh ->
  fin k -> sign_of k = false -> mag k <= 2 ^ 1074 ->
  at_height height k = Ok (floor_float (fh ⊗ k)) /\ fin (fh ⊗ k) /\
  sign_of (fh ⊗ k) = false /\ mag (fh ⊗ k) <= mag fh.
Proof.
  intros Hh Hfh Hk Sk Mk.
  destruct (float_of_int_inv height fh Hh Hfh) as (-> & Hfin & Hsign).
  assert (H0 := mag_nonneg (of_Z height)).
  destruct (fmul_upper (of_Z height) k (of_Z height) Hfin Hk Hfin) as (Hf & Hm & Hs).
  { nia. }
  rewrite Hsign, Sk in Hs. cbn [xorb] in Hs.
  unfold at_height, imul. rewrite Hfh. cbn [bind].
  unfold fmul, prec, emax in *. repeat split; try assumption.
  now apply int_of_float_fin.
Qed.

(** * The progress bar *)

Lemma fill_w_spec x :
  fin x -> sign_of x = false ->
  let w := floor_float x in
  fill_w w = Ok (floor_float (of_Z w ⊗ f_0_6)) /\
  floor_float (of_Z w ⊗ f_0_6) <= w.
Proof.
  intros Hx Sx w.
  destruct (of_Z_floor x Hx) as (Hf & Hm & Hs & Hconv). fold w in Hf, Hm, Hs, Hconv.
  assert (H0 := mag_nonneg (of_Z w)).
  assert (H6 : mag f_0_6 <= 2 ^ 1074) by closed_le.
  destruct (fmul_upper (of_Z w) f_0_6 (of_Z w) Hf ltac:(reflexivity) Hf) as (Hpf & Hpm & Hps).
  { nia. }
  rewrite Hs in Hps. cbn [xorb sign_of f_0_6] in Hps.
  unfold fill_w, imul. rewrite Hconv. cbn [bind]. unfold fmul, prec, emax in *.
  split.
  - now apply int_of_float_fin.
  - unfold floor_float at 1. unfold w at 2. unfold floor_float.
    apply Z.div_le_mono; lia.
Qed.



(** At the three configured sizes the track is 62, 125 and 250 pixels
    wide and the fill 37, 75 and 150, the integer floor of 0.6 times
    the track width. *)
Example fill_widths_configured :
  map (fun width => s <- scale_of width ;; w <- bar_w s ;; fw <- fill_w w ;; Ok (w, fw))
      [250; 500; 1000]
  = [Ok (62, 37); Ok (125, 75); Ok (250, 150)].
Proof. vm_compute. reflexivity. Qed.

(** * Scaled measurements *)

Lemma scaled_nonneg k s :
  scale_literal k -> good_scale s -> exists z, scaled k s = Ok z /\ 0 <= z.
Proof.
  intros (Hk & Sk & Mk) Hg.
  destruct (scaled_ok k s Hk Sk Mk Hg) as (_ & _ & Heq & Hnn). eauto.
Qed.

(** [max(lo, int(k * scale))] *)
Lemma clamped_scaled k s lo :
  scale_literal k -> good_scale s ->
  exists z, (d <- scaled k s ;; Ok (Z.max lo d)) = Ok z /\ lo <= z /\ 0 <= z.
Proof.
  intros Hk Hg. destruct (scaled_nonneg k s Hk Hg) as (d & Hd & Hd0).
  exists (Z.max lo d). rewrite Hd. cbn [bind]. repeat split; lia.
Qed.

(** C4. For every positive width whose conversion to a float does not
    overflow, the scale factor is the float quotient of the width by
    1000.0, the float next to width/1000 (no float lies strictly
    between the two when the width is below 2^53); the dot radius and
    the bar height are integers of at least 2, and every scaled
    measurement (line widths, offsets, font sizes) is a non-negative
    integer that respects its minimum. *)
Theorem scaled_measurements (width : Z) (s : float) :
  0 < width -> scale_of width = Ok s ->
  s = of_Z width ⊘ fi 1000 /\
  (width < 2 ^ 53 ->
   forall B, fin B ->
     (1000 * mag B <= width * 2 ^ 1074 -> mag B <= mag s) /\
     (width * 2 ^ 1074 <= 1000 * mag B -> mag s <= mag B)) /\
  (exists r, dot_r s = Ok r /\ 2 <= r) /\
  (exists h, bar_h s = Ok h /\ 2 <= h) /\
  (exists a b c, icon_lw s = Ok [a; b; c] /\ 2 <= a /\ 2 <= b /\ 1 <= c) /\
  (exists w, wave_width s = Ok w /\ 1 <= w) /\
  (exists n, font_size s = Ok n /\ 10 <= n) /\
  (exists n, small_font_size s = Ok n /\ 8 <= n) /\
  (exists z, grid_spacing s = Ok z /\ 0 <= z) /\
  (exists z, dot_spacing s = Ok z /\ 0 <= z) /\
  (exists z, glow_rx s = Ok z /\ 0 <= z) /\
  (exists z, glow_ry s = Ok z /\ 0 <= z) /\
  (exists z, bar_w s = Ok z /\ 0 <= z) /\
  (forall k, In k [55; 45; 100] -> exists z, scaled (fi k) s = Ok z /\ 0 <= z).
Proof.
  intros Hw Hs. assert (Hg := scale_of_good width s Hw Hs).
  destruct (scale_of_inv width s Hw Hs) as (Heq & _).
  split; [exact Heq | ]. split.
  { intros H53 B HB. split; intros Hle.
    - apply (scale_lower width s width B Hw Hs); try assumption; lia.
    - apply (scale_upper width s width B Hw Hs); try assumption; lia. }
  assert (L : forall k, 0 <= k <= 512 -> scale_literal (fi k)) by apply scale_literal_fi.
  split. { destruct (clamped_scaled (fi 3) s 2 (L 3 ltac:(lia)) Hg) as (z & ? & ? & ?). eauto. }
  split. { destruct (clamped_scaled (fi 4) s 2 (L 4 ltac:(lia)) Hg) as (z & ? & ? & ?). eauto. }
  split.
  { destruct (scaled_nonneg (fi 5) s (L 5 ltac:(lia)) Hg) as (a & Ha & ?).
    destruct (scaled_nonneg (fi 4) s (L 4 ltac:(lia)) Hg) as (b & Hb & ?).
    destruct (scaled_nonneg f_3_2 s scale_literal_3_2 Hg) as (c & Hc & ?).
    exists (Z.max 2 a), (Z.max 2 b), (Z.max 1 c).
    unfold icon_lw. rewrite Ha, Hb, Hc. cbn [bind]. repeat split; lia. }
  split. { destruct (clamped_scaled f_1_5 s 1 scale_literal_1_5 Hg) as (z & ? & ? & ?). eauto. }
  split. { destruct (clamped_scaled (fi 16) s 10 (L 16 ltac:(lia)) Hg) as (z & ? & ? & ?). eauto. }
  split. { destruct (clamped_scaled (fi 12) s 8 (L 12 ltac:(lia)) Hg) as (z & ? & ? & ?). eauto. }
  split. { apply scaled_nonneg; [apply L; lia | assumption]. }
  split. { apply scaled_nonneg; [apply L; lia | assumption]. }
  split. { apply scaled_nonneg; [apply L; lia | assumption]. }
  split. { apply scaled_nonneg; [apply L; lia | assumption]. }
  split. { apply scaled_nonneg; [apply L; lia | assumption]. }
  intros k Hk. apply scaled_nonneg; [ | assumption].
  apply L. cbn [In] in Hk. lia.
Qed.

(** * Lists and the error monad *)

Lemma mapM_ok {A B : Type} (f : A -> result B) (l : list A) :
  Forall (fun a => exists b, f a = Ok b) l -> exists l', mapM f l = Ok l'.
Proof.
  induction 1 as [ | a l (b & Hb) _ (l' & Hl')]; cbn [mapM].
  - now exists [].
  - exists (b :: l'). now rewrite Hb, Hl'.
Qed.

Lemma mapM_inv {A B : Type} (f : A -> result B) (l : list A) (l' : list B) :
  mapM f l = Ok l' -> Forall2 (fun a b => f a = Ok b) l l'.
Proof.
  revert l'. induction l as [ | a l IH]; intros l' H; cbn [mapM] in H.
  - inversion H. constructor.
  - destruct (f a) as [b | e] eqn:Hb; cbn [bind] in H; [ | discriminate].
    destruct (mapM f l) as [bs | e] eqn:Hbs; cbn [bind] in H; [ | discriminate].
    inversion H. subst l'. constructor; auto.
Qed.

Lemma Forall2_length_eq {A B : Type} (R : A -> B -> Prop) l l' :
  Forall2 R l l' -> length l' = length l.
Proof. induction 1; cbn; congruence. Qed.

Lemma Forall2_nth {A B : Type} (R : A -> B -> Prop) l l' :
  Forall2 R l l' ->
  forall n a, nth_error l n = Some a -> exists b, nth_error l' n = Some b /\ R a b.
Proof.
  induction 1 as [ | a0 b0 l l' H0 _ IH]; intros n a Hn.
  - destruct n; discriminate.
  - destruct n as [ | n]; cbn [nth_error] in *.
    + inversion Hn. subst. eauto.
    + now apply IH.
Qed.

Lemma range_length a b : a <= b -> length (range a b) = Z.to_nat (b - a).
Proof.
  intros H. unfold range, range3. cbn [Z.ltb Z.compare].
  rewrite length_map, length_seq, Z.div_1_r. f_equal. lia.
Qed.

Lemma range_nth a b n :
  Z.of_nat n < b - a -> nth_error (range a b) n = Some (a + Z.of_nat n).
Proof.
  intros H. unfold range, range3. cbn [Z.ltb Z.compare].
  rewrite Z.div_1_r. rewrite nth_error_map.
  rewrite nth_error_seq.
  destruct (Nat.ltb_spec n (Z.to_nat (b - a + 1 - 1))) as [ | Hge]; [ | lia].
  cbn [option_map]. f_equal. lia.
Qed.

Lemma forallb_range_nth (chk : Z -> bool) a b :
  forallb chk (range a b) = true ->
  forall i, a <= i < b -> chk i = true.
Proof.
  intros H i Hi. rewrite forallb_forall in H. apply H.
  apply (nth_error_In _ (Z.to_nat (i - a))).
  rewrite range_nth by lia. f_equal. lia.
Qed.

(** * The curve sampler *)

Lemma fi_1_eq : fi 1 = S754_finite false 4503599627370496 (-52).
Proof. reflexivity. Qed.

Lemma fi_3_eq : fi 3 = S754_finite false 6755399441055744 (-51).
Proof. reflexivity. Qed.

Lemma is_zero_inv z : is_zero z = true -> exists s, z = S754_zero s.
Proof. destruct z; cbn; intros H; try discriminate. eauto. Qed.

Lemma is_zero_mul_l z x : is_zero z = true -> fin x -> is_zero (z ⊗ x) = true.
Proof.
  intros Hz Hx. destruct (is_zero_inv z Hz) as [s ->].
  destruct x; cbn in *; try contradiction; reflexivity.
Qed.

Lemma is_zero_mul_r z x : is_zero z = true -> fin x -> is_zero (x ⊗ z) = true.
Proof.
  intros Hz Hx. destruct (is_zero_inv z Hz) as [s ->].
  destruct x; cbn in *; try contradiction; reflexivity.
Qed.

Lemma is_zero_fin z : is_zero z = true -> fin z.
Proof. intros Hz. destruct (is_zero_inv z Hz) as [s ->]. exact I. Qed.

Lemma fmul_one_l x : fin x -> fi 1 ⊗ x = x.
Proof.
  intros Hx. destruct (fi_exact 1 ltac:(rewrite pow2_53; lia)) as (F1 & M1 & S1).
  assert (H0 := mag_nonneg x).
  destruct (fmul_upper (fi 1) x x F1 Hx Hx) as (Hf & Hle & Hs); [rewrite M1; lia | ].
  destruct (fmul_lower (fi 1) x x F1 Hx Hx) as [_ [Hi | [_ Hge]]]; [rewrite M1; lia | | ].
  - exfalso. fold (fmul (fi 1) x) in Hi. unfold fmul, prec, emax in Hi, Hf.
    rewrite Hi in Hf. exact Hf.
  - rewrite S1 in Hs. cbn [xorb] in Hs.
    unfold fmul, prec, emax. apply fin_unique; try assumption. lia.
Qed.

Lemma feqb_refl x : fin x -> feqb x x = true.
Proof.
  destruct x as [s | s | | s m e]; cbn [fin]; intros H; try contradiction.
  - reflexivity.
  - unfold feqb, SFeqb, SFcompare. rewrite Z.compare_refl.
    replace (Pos.compare_cont Eq m m) with Eq by (symmetry; apply Pos.compare_cont_refl).
    destruct s; reflexivity.
Qed.

Lemma add_zeros_r x z1 z2 z3 :
  fin x -> is_zero z1 = true -> is_zero z2 = true -> is_zero z3 = true ->
  feqb (x ⊕ z1 ⊕ z2 ⊕ z3) x = true.
Proof.
  intros Hx H1 H2 H3.
  destruct (is_zero_inv _ H1) as [s1 ->], (is_zero_inv _ H2) as [s2 ->],
           (is_zero_inv _ H3) as [s3 ->].
  destruct x as [s | s | | s m e]; cbn [fin] in Hx; try contradiction.
  - destruct s, s1, s2, s3; reflexivity.
  - cbn [fadd SFadd]. now apply (feqb_refl (S754_finite s m e)).
Qed.

Lemma add_zeros_l x z1 z2 z3 :
  fin x -> is_zero z1 = true -> is_zero z2 = true -> is_zero z3 = true ->
  feqb (z1 ⊕ z2 ⊕ z3 ⊕ x) x = true.
Proof.
  intros Hx H1 H2 H3.
  destruct (is_zero_inv _ H1) as [s1 ->], (is_zero_inv _ H2) as [s2 ->],
           (is_zero_inv _ H3) as [s3 ->].
  destruct x as [s | s | | s m e]; cbn [fin] in Hx; try contradiction.
  - destruct s, s1, s2, s3; reflexivity.
  - destruct s1, s2, s3; cbn [fadd SFadd]; now apply (feqb_refl (S754_finite s m e)).
Qed.

Section Sampler.

Variable rt : runtime.
Hypothesis Hpow : pow_exact_on_unit rt.

Lemma bezier_coord_ok a0 a1 a2 a3 u t :
  in_unit u = true -> in_unit t = true ->
  exists x, bezier_coord rt a0 a1 a2 a3 u t = Ok x.
Proof.
  intros Hu Ht. destruct Hpow as (Htot & _ & _). unfold bezier_coord.
  destruct (Htot u 3 ltac:(lia) Hu) as [u3 ->].
  destruct (Htot u 2 ltac:(lia) Hu) as [u2 ->].
  destruct (Htot t 2 ltac:(lia) Ht) as [t2 ->].
  destruct (Htot t 3 ltac:(lia) Ht) as [t3 ->].
  cbn [bind]. eauto.
Qed.

Lemma cubic_bezier_ok p0 p1 p2 p3 t :
  in_unit t = true -> in_unit (fi 1 ⊖ t) = true ->
  exists q, cubic_bezier rt p0 p1 p2 p3 t = Ok q.
Proof.
  intros Ht Hu. unfold cubic_bezier.
  destruct (bezier_coord_ok (fst p0) (fst p1) (fst p2) (fst p3) _ _ Hu Ht) as [x ->].
  destruct (bezier_coord_ok (snd p0) (snd p1) (snd p2) (snd p3) _ _ Hu Ht) as [y ->].
  cbn [bind]. eauto.
Qed.

(** At [t = 1] a coordinate is the one of the last control point. *)
Lemma bezier_coord_at_one a0 a1 a2 a3 :
  fin a0 -> fin a1 -> fin a2 -> fin a3 ->
  exists x, bezier_coord rt a0 a1 a2 a3 (S754_zero false) (fi 1) = Ok x /\
            feqb x a3 = true.
Proof.
  intros H0 H1 H2 H3. destruct Hpow as (_ & Hz & Ho). unfold bezier_coord.
  rewrite !Hz, !Ho by lia. cbn [bind]. eexists. split; [reflexivity | ].
  rewrite (fmul_one_l a3 H3).
  apply add_zeros_l; try assumption.
  - now apply is_zero_mul_l.
  - apply is_zero_mul_l; [ | assumption]. rewrite fi_3_eq, fi_1_eq. reflexivity.
  - apply is_zero_mul_l; [ | assumption]. rewrite fi_3_eq, fi_1_eq. reflexivity.
Qed.

(** At [t = 0] a coordinate is the one of the first control point. *)
Lemma bezier_coord_at_zero a0 a1 a2 a3 :
  fin a0 -> fin a1 -> fin a2 -> fin a3 ->
  exists x, bezier_coord rt a0 a1 a2 a3 (fi 1) (S754_zero false) = Ok x /\
            feqb x a0 = true.
Proof.
  intros H0 H1 H2 H3. destruct Hpow as (_ & Hz & Ho). unfold bezier_coord.
  rewrite !Hz, !Ho by lia. cbn [bind]. eexists. split; [reflexivity | ].
  rewrite (fmul_one_l a0 H0).
  apply add_zeros_r; try assumption.
  - apply is_zero_mul_l; [ | assumption]. rewrite fi_3_eq, fi_1_eq. reflexivity.
  - apply is_zero_mul_l; [ | assumption]. rewrite fi_3_eq, fi_1_eq. reflexivity.
  - now apply is_zero_mul_l.
Qed.

Lemma cubic_bezier_at_one p0 p1 p2 p3 :
  finite_point p0 -> finite_point p1 -> finite_point p2 -> finite_point p3 ->
  exists q, cubic_bezier rt p0 p1 p2 p3 (fi 1) = Ok q /\ point_eqb q p3 = true.
Proof.
  intros [X0 Y0] [X1 Y1] [X2 Y2] [X3 Y3]. unfold cubic_bezier.
  change (fi 1 ⊖ fi 1) with (S754_zero false).
  destruct (bezier_coord_at_one _ _ _ _ X0 X1 X2 X3) as (x & -> & Hx).
  destruct (bezier_coord_at_one _ _ _ _ Y0 Y1 Y2 Y3) as (y & -> & Hy).
  cbn [bind]. eexists. split; [reflexivity | ].
  unfold point_eqb. cbn [fst snd]. now rewrite Hx, Hy.
Qed.

Lemma cubic_bezier_at_zero p0 p1 p2 p3 :
  finite_point p0 -> finite_point p1 -> finite_point p2 -> finite_point p3 ->
  exists q, cubic_bezier rt p0 p1 p2 p3 (S754_zero false) = Ok q /\
            point_eqb q p0 = true.
Proof.
  intros [X0 Y0] [X1 Y1] [X2 Y2] [X3 Y3]. unfold cubic_bezier.
  change (fi 1 ⊖ S754_zero false) with (fi 1).
  destruct (bezier_coord_at_zero _ _ _ _ X0 X1 X2 X3) as (x & -> & Hx).
  destruct (bezier_coord_at_zero _ _ _ _ Y0 Y1 Y2 Y3) as (y & -> & Hy).
  cbn [bind]. eexists. split; [reflexivity | ].
  unfold point_eqb. cbn [fst snd]. now rewrite Hx, Hy.
Qed.

End Sampler.

Lemma unit_steps : forallb unit_step (range 0 (steps + 1)) = true.
Proof. vm_compute. reflexivity. Qed.

Lemma unit_step_inv i :
  0 <= i <= steps ->
  exists t, int_truediv i steps = Ok t /\ in_unit t = true /\ in_unit (fi 1 ⊖ t) = true.
Proof.
  intros Hi. assert (H := forallb_range_nth unit_step 0 (steps + 1) unit_steps i ltac:(lia)).
  unfold unit_step in H. destruct (int_truediv i steps) as [t | e]; [ | discriminate].
  apply andb_true_iff in H. exists t. tauto.
Qed.

Section Polyline.

Variable rt : runtime.
Hypothesis Hpow : pow_exact_on_unit rt.
Variables p0 p1 p2 p3 p4 p5 p6 : point.

Let points : list point := [p0; p1; p2; p3; p4; p5; p6].

Lemma sample_first i :
  0 <= i <= steps ->
  exists t q, int_truediv i steps = Ok t /\
              cubic_bezier rt p0 p1 p2 p3 t = Ok q /\ sample rt points 0 i = Ok q.
Proof.
  intros Hi. destruct (unit_step_inv i Hi) as (t & Ht & U1 & U2).
  destruct (cubic_bezier_ok rt Hpow p0 p1 p2 p3 t U1 U2) as [q Hq].
  exists t, q. unfold sample. rewrite Ht. cbn [bind points index nth_error Nat.add].
  auto.
Qed.

Lemma sample_second i :
  0 <= i <= steps ->
  exists t q, int_truediv i steps = Ok t /\
              cubic_bezier rt p3 p4 p5 p6 t = Ok q /\ sample rt points 3 i = Ok q.
Proof.
  intros Hi. destruct (unit_step_inv i Hi) as (t & Ht & U1 & U2).
  destruct (cubic_bezier_ok rt Hpow p3 p4 p5 p6 t U1 U2) as [q Hq].
  exists t, q. unfold sample. rewrite Ht. cbn [bind points index nth_error Nat.add].
  auto.
Qed.

Lemma segment_ok k a :
  (k = 0%nat \/ k = 3%nat) -> 0 <= a -> a <= steps + 1 ->
  exists seg, mapM (sample rt points k) (range a (steps + 1)) = Ok seg.
Proof.
  intros Hk Ha Hb. apply mapM_ok. apply Forall_forall. intros i Hi.
  apply In_nth_error in Hi. destruct Hi as [n Hn].
  assert (Hlen : (n < length (range a (steps + 1)))%nat)
    by (apply nth_error_Some; congruence).
  rewrite range_length in Hlen by lia.
  rewrite range_nth in Hn by lia. inversion Hn. subst i.
  destruct Hk as [-> | ->].
  - destruct (sample_first (a + Z.of_nat n) ltac:(lia)) as (t & q & _ & _ & H). eauto.
  - destruct (sample_second (a + Z.of_nat n) ltac:(lia)) as (t & q & _ & _ & H). eauto.
Qed.


End Polyline.


(** * The glow layer: alpha *)

Lemma glow_radii_eq :
  glow_radii = [20; 19; 18; 17; 16; 15; 14; 13; 12; 11; 10; 9; 8; 7; 6; 5; 4; 3; 2; 1].
Proof. reflexivity. Qed.

Lemma glow_ellipse_fill cx cy rx ry s r e :
  glow_ellipse cx cy rx ry s r = Ok e -> fill_of e = RGBA 46 204 113 (applied_alpha r).
Proof.
  unfold glow_ellipse. intros H.
  repeat match type of H with
  | bind ?m _ = Ok _ => destruct m; cbn [bind] in H; [ | discriminate]
  end.
  inversion H. reflexivity.
Qed.

(** C10. In the glow loop the first ellipse drawn, the one for
    [r = 20], has alpha [8 * (20 - 20) = 0]: at most 19 of the 20
    ellipses have a positive alpha; the largest alpha applied over the
    loop is [min(8 * 19, 50) = 50], and it is applied exactly for
    [r <= 13]. *)
Theorem glow_alpha_outermost_transparent :
  hd 0 glow_radii = 20 /\ length glow_radii = 20%nat /\
  glow_alpha 20 = 0 /\ applied_alpha 20 = 0 /\
  (forall cx cy rx ry s e,
     glow_ellipse cx cy rx ry s 20 = Ok e -> fill_of e = RGBA 46 204 113 0) /\
  (forall cx cy rx ry s r e,
     glow_ellipse cx cy rx ry s r = Ok e ->
     fill_of e = RGBA 46 204 113 (Z.min (8 * (20 - r)) 50)) /\
  length (filter (fun r => 0 <? applied_alpha r) glow_radii) = 19%nat /\
  fold_right Z.max 0 (map applied_alpha glow_radii) = 50 /\
  Z.min (8 * 19) 50 = 50 /\
  (forall r, In r glow_radii -> applied_alpha r <= 50 /\ (applied_alpha r = 50 <-> r <= 13)).
Proof.
  split; [reflexivity | ]. split; [reflexivity | ].
  split; [reflexivity | ]. split; [reflexivity | ].
  split. { intros cx cy rx ry s e H. now apply glow_ellipse_fill in H. }
  split. { intros cx cy rx ry s r e H. now apply glow_ellipse_fill in H. }
  split; [reflexivity | ]. split; [reflexivity | ]. split; [reflexivity | ].
  intros r H. unfold applied_alpha, glow_alpha.
  rewrite glow_radii_eq in H. cbn [In] in H. lia.
Qed.

(** * The icon *)

Lemma draw_breeze_curve_widths rt points width c cmds :
  draw_breeze_curve rt points width c = Ok cmds ->
  Forall (fun cmd => line_width cmd = Some width /\ fill_of cmd = c) cmds.
Proof.
  unfold draw_breeze_curve. intros H.
  destruct (all_pts rt points) as [pts | e]; cbn [bind] in H; [ | discriminate].
  inversion H. apply Forall_forall. intros cmd Hin.
  apply in_map_iff in Hin. destruct Hin as (ab & <- & _). split; reflexivity.
Qed.

Lemma draw_icon_unfold rt cx cy size c a b d :
  draw_icon rt cx cy size c [a; b; d] =
    (let s := size ⊘ fi 100 in
     ox <- isub cx (fi 52 ⊗ s) ;;
     oy <- isub cy (fi 50 ⊗ s) ;;
     top <- draw_breeze_curve rt (map (place ox oy s) top_curve) a c ;;
     mid <- draw_breeze_curve rt (map (place ox oy s) middle_curve) b c ;;
     bot <- draw_breeze_curve rt (map (place ox oy s) bottom_curve) d c ;;
     Ok (top ++ mid ++ bot)).
Proof.
  unfold draw_icon. cbv zeta.
  destruct (isub cx _) as [ox | e]; cbn [bind]; [ | reflexivity].
  destruct (isub cy _) as [oy | e]; cbn [bind]; [ | reflexivity].
  cbn [curves enumerate_from mapM fst snd index nth_error bind].
  destruct (draw_breeze_curve rt _ a c) as [top | e]; cbn [bind]; [ | reflexivity].
  destruct (draw_breeze_curve rt _ b c) as [mid | e]; cbn [bind]; [ | reflexivity].
  destruct (draw_breeze_curve rt _ d c) as [bot | e]; cbn [bind]; [ | reflexivity].
  cbn [concat]. now rewrite app_nil_r.
Qed.

(** C3, as stated, fails at the width 250: the top and the middle
    curve are both drawn 2 pixels wide. *)
Lemma stroke_widths_250_not_distinct :
  (s <- scale_of 250 ;; icon_lw s) = Ok [2; 2; 1] /\ ~ NoDup [2; 2; 1].
Proof.
  split; [reflexivity | ]. intros H. inversion H as [ | x l Hn _]. apply Hn. now left.
Qed.

(** C3, amended. The three icon curves are drawn with the stroke widths
    [max(2, int(5*scale))], [max(2, int(4*scale))] and
    [max(1, int(3.2*scale))], the top curve with the first, the middle
    curve with the second and the bottom curve with the third; at the
    width 1000 they are 5, 4 and 3, pairwise distinct, and at the
    widths 250 and 500 they are 2, 2 and 1: the two clamps at 2 give
    the top and the middle curve the same width. *)
Theorem stroke_widths_configured :
  (forall width s, 0 < width -> scale_of width = Ok s ->
     icon_lw s = Ok [ Z.max 2 (floor_float (fi 5 ⊗ s));
                      Z.max 2 (floor_float (fi 4 ⊗ s));
                      Z.max 1 (floor_float (f_3_2 ⊗ s)) ]) /\
  (forall rt cx cy size c a b d cmds,
     draw_icon rt cx cy size c [a; b; d] = Ok cmds ->
     exists top mid bot,
       cmds = top ++ mid ++ bot /\
       Forall (fun cmd => line_width cmd = Some a) top /\
       Forall (fun cmd => line_width cmd = Some b) mid /\
       Forall (fun cmd => line_width cmd = Some d) bot) /\
  (s <- scale_of 1000 ;; icon_lw s) = Ok [5; 4; 3] /\ NoDup [5; 4; 3] /\
  (s <- scale_of 250 ;; icon_lw s) = Ok [2; 2; 1] /\
  (s <- scale_of 500 ;; icon_lw s) = Ok [2; 2; 1].
Proof.
  split.
  { intros width s Hw Hs. assert (Hg := scale_of_good width s Hw Hs).
    destruct (scale_literal_fi 5 ltac:(lia)) as (F5 & S5 & M5).
    destruct (scale_literal_fi 4 ltac:(lia)) as (F4 & S4 & M4).
    destruct scale_literal_3_2 as (F3 & S3 & M3).
    destruct (scaled_ok _ s F5 S5 M5 Hg) as (_ & _ & E5 & _).
    destruct (scaled_ok _ s F4 S4 M4 Hg) as (_ & _ & E4 & _).
    destruct (scaled_ok _ s F3 S3 M3 Hg) as (_ & _ & E3 & _).
    unfold icon_lw. rewrite E5, E4, E3. reflexivity. }
  split.
  { intros rt cx cy size c a b d cmds H. rewrite draw_icon_unfold in H. cbv zeta in H.
    destruct (isub cx _) as [ox | e]; cbn [bind] in H; [ | discriminate].
    destruct (isub cy _) as [oy | e]; cbn [bind] in H; [ | discriminate].
    destruct (draw_breeze_curve rt _ a c) as [top | e] eqn:Ht; cbn [bind] in H; [ | discriminate].
    destruct (draw_breeze_curve rt _ b c) as [mid | e] eqn:Hm; cbn [bind] in H; [ | discriminate].
    destruct (draw_breeze_curve rt _ d c) as [bot | e] eqn:Hb; cbn [bind] in H; [ | discriminate].
    inversion H. exists top, mid, bot. split; [reflexivity | ].
    repeat split; eapply Forall_impl;
      try (eapply draw_breeze_curve_widths; eassumption); cbn beta; tauto. }
  split; [reflexivity | ]. split.
  { repeat constructor; cbn [In]; lia. }
  split; reflexivity.
Qed.



(** * Error handling *)

Lemma load_fonts_fallback rt s f :
  truetype_fonts rt s = Raise OSError -> rt_load_default rt = Ok f ->
  load_fonts rt s = Ok (f, f).
Proof. intros H1 H2. unfold load_fonts. now rewrite H1, H2. Qed.

Lemma load_fonts_not_caught rt s e :
  truetype_fonts rt s = Raise e -> e <> OSError -> load_fonts rt s = Raise e.
Proof. intros H1 H2. unfold load_fonts. rewrite H1. destruct e; congruence. Qed.

(** A run of generate_image that returns has had every stage return;
    the font loader alone may have raised, and only OSError. *)
Lemma generate_image_inv (rt : runtime) (width height : Z) (filename : string) :
  (forall out,
     generate_image rt width height filename = Ok out ->
     exists s bg grid dots waves glow icon text_y fonts texts bar,
       scale_of width = Ok s /\
       background_gradient width height = Ok bg /\
       grid_lines width height s = Ok grid /\
       corner_dots width s = Ok dots /\
       wavy_lines rt width height s = Ok waves /\
       glow_layer width height s = Ok glow /\
       main_icon rt width height s = Ok icon /\
       at_height height f_0_76 = Ok text_y /\
       (truetype_fonts rt s = Ok fonts \/
        (truetype_fonts rt s = Raise OSError /\
         exists f, rt_load_default rt = Ok f /\ fonts = (f, f))) /\
       draw_readings rt width text_y (fst fonts) = Ok texts /\
       progress_bar width height s = Ok bar /\
       rt_save rt out filename = Ok tt /\
       out = Paste_alpha (Image_new "RGB" width height BG_DARK)
               (Drawn (Alpha_composite
                         (Drawn (Image_new "RGBA" width height BG_DARK)
                                (bg ++ grid ++ dots ++ waves)) glow)
                      (icon ++ texts ++ bar))).
Proof.
  intros out H. unfold generate_image in H.
  destruct (scale_of width) as [s | ] eqn:Hs; cbn [bind] in H; [ | discriminate].
  destruct (background_gradient width height) as [bg | ] eqn:Hbg;
    cbn [bind] in H; [ | discriminate].
  destruct (grid_lines width height s) as [grid | ] eqn:Hgrid;
    cbn [bind] in H; [ | discriminate].
  destruct (corner_dots width s) as [dots | ] eqn:Hdots;
    cbn [bind] in H; [ | discriminate].
  destruct (wavy_lines rt width height s) as [waves | ] eqn:Hwaves;
    cbn [bind] in H; [ | discriminate].
  destruct (glow_layer width height s) as [glow | ] eqn:Hglow;
    cbn [bind] in H; [ | discriminate].
  unfold finish in H.
  destruct (main_icon rt width height s) as [icon | ] eqn:Hicon;
    cbn [bind] in H; [ | discriminate].
  unfold sensor_readings in H.
  destruct (at_height height f_0_76) as [text_y | ] eqn:Hty;
    cbn [bind] in H; [ | discriminate].
  destruct (load_fonts rt s) as [fonts | ] eqn:E8; cbn [bind] in H; [ | discriminate].
  destruct (draw_readings rt width text_y (fst fonts)) as [texts | ] eqn:Htexts;
    cbn [bind] in H; [ | discriminate].
  destruct (progress_bar width height s) as [bar | ] eqn:Hbar;
    cbn [bind] in H; [ | discriminate].
  unfold save in H.
  match type of H with bind ?m _ = _ => destruct m as [u | ] eqn:Hsave end;
    cbn [bind] in H; [ | discriminate].
  inversion H. subst out. clear H. destruct u.
  exists s, bg, grid, dots, waves, glow, icon, text_y, fonts, texts, bar.
  repeat (split; [first [assumption | reflexivity] | ]).
  split; [ | repeat (split; [first [assumption | reflexivity] | ]); reflexivity].
  unfold load_fonts in E8.
  destruct (truetype_fonts rt s) as [fonts' | e] eqn:Et.
  - left. congruence.
  - right. destruct e; try discriminate. split; [reflexivity | ].
    destruct (rt_load_default rt) as [f | e]; cbn [bind] in E8; [ | discriminate].
    exists f. split; [reflexivity | congruence].
Qed.

(** C7. When loading the TrueType font raises OSError (IOError is the
    same class), at the first or at the second call, generate_image
    takes the built-in default font for both the main and the small
    font and goes on: the readings are drawn with the default font,
    the progress bar is drawn and the image is saved.  Nothing else is
    caught: a failure of the save leaves generate_image as it was
    raised, and so do another exception of the font loader and a
    failure of the default font; a run of generate_image that returns
    has had every operation return, the font loader apart, which has
    returned or raised OSError. *)
Theorem font_failure_only_caught
  (rt : runtime) (width height : Z) (filename : string) :
  (forall (s : float) (bg grid dots waves icon texts bar : list draw_cmd)
          (glow : image) (text_y : Z) (f : font),
     scale_of width = Ok s ->
     background_gradient width height = Ok bg ->
     grid_lines width height s = Ok grid ->
     corner_dots width s = Ok dots ->
     wavy_lines rt width height s = Ok waves ->
     glow_layer width height s = Ok glow ->
     main_icon rt width height s = Ok icon ->
     at_height height f_0_76 = Ok text_y ->
     let img :=
       Alpha_composite
         (Drawn (Image_new "RGBA" width height BG_DARK) (bg ++ grid ++ dots ++ waves))
         glow in
     let saved :=
       Paste_alpha (Image_new "RGB" width height BG_DARK)
                   (Drawn img (icon ++ texts ++ bar)) in
     (truetype_fonts rt s = Raise OSError ->
      rt_load_default rt = Ok f ->
      load_fonts rt s = Ok (f, f) /\
      (draw_readings rt width text_y f = Ok texts ->
       progress_bar width height s = Ok bar ->
       (rt_save rt saved filename = Ok tt ->
        generate_image rt width height filename = Ok saved) /\
       (forall e, rt_save rt saved filename = Raise e ->
        generate_image rt width height filename = Raise e))) /\
     (forall e, truetype_fonts rt s = Raise OSError -> rt_load_default rt = Raise e ->
        generate_image rt width height filename = Raise e) /\
     (forall e, truetype_fonts rt s = Raise e -> e <> OSError ->
        load_fonts rt s = Raise e /\
        generate_image rt width height filename = Raise e)) /\
  (forall out,
     generate_image rt width height filename = Ok out ->
     exists s bg grid dots waves glow icon text_y fonts texts bar,
       scale_of width = Ok s /\
       background_gradient width height = Ok bg /\
       grid_lines width height s = Ok grid /\
       corner_dots width s = Ok dots /\
       wavy_lines rt width height s = Ok waves /\
       glow_layer width height s = Ok glow /\
       main_icon rt width height s = Ok icon /\
       at_height height f_0_76 = Ok text_y /\
       (truetype_fonts rt s = Ok fonts \/
        (truetype_fonts rt s = Raise OSError /\
         exists f, rt_load_default rt = Ok f /\ fonts = (f, f))) /\
       draw_readings rt width text_y (fst fonts) = Ok texts /\
       progress_bar width height s = Ok bar /\
       rt_save rt out filename = Ok tt /\
       out = Paste_alpha (Image_new "RGB" width height BG_DARK)
               (Drawn (Alpha_composite
                         (Drawn (Image_new "RGBA" width height BG_DARK)
                                (bg ++ grid ++ dots ++ waves)) glow)
                      (icon ++ texts ++ bar))).
Proof.
  split.
  - intros s bg grid dots waves icon texts bar glow text_y f
           Hs Hbg Hgrid Hdots Hwaves Hglow Hicon Hty img saved.
    assert (Hgen : generate_image rt width height filename =
                   finish rt width height s img filename).
    { unfold generate_image. rewrite Hs. cbn [bind].
      rewrite Hbg, Hgrid, Hdots, Hwaves, Hglow. reflexivity. }
    split; [ | split].
    + intros Htt Hdef. split; [now apply load_fonts_fallback | ].
      intros Htexts Hbar.
      assert (Hfin : finish rt width height s img filename =
                     save rt width height (Drawn img (icon ++ texts ++ bar)) filename).
      { unfold finish, sensor_readings. rewrite Hicon, Hty. cbn [bind].
        rewrite (load_fonts_fallback rt s f Htt Hdef). cbn [bind fst].
        rewrite Htexts, Hbar. reflexivity. }
      rewrite Hgen, Hfin. unfold save. fold saved.
      split; [intros -> | intros e ->]; reflexivity.
    + intros e Htt Hdef. rewrite Hgen.
      unfold finish, sensor_readings. rewrite Hicon, Hty. cbn [bind].
      unfold load_fonts. rewrite Htt, Hdef. reflexivity.
    + intros e Hraise Hne.
      split; [now apply load_fonts_not_caught | ].
      rewrite Hgen. unfold finish, sensor_readings. rewrite Hicon, Hty. cbn [bind].
      now rewrite (load_fonts_not_caught rt s e Hraise Hne).
  - apply generate_image_inv.
Qed.

(** * The glow layer: radii *)

Lemma scale_positive width s :
  0 < width -> scale_of width = Ok s -> mag f_0_0009 <= mag s.
Proof.
  intros Hw Hs.
  apply (scale_lower width s 1 f_0_0009 Hw Hs);
    [rewrite pow2_53; lia | lia | reflexivity | closed_le].
Qed.

Lemma f_0_0009_large : 1152921504606846976 <= mag f_0_0009.
Proof. closed_le. Qed.

(** The product of the scale factor by an integer [1 <= k <= 128]. *)
Lemma scaled_product k s :
  1 <= k <= 128 -> good_scale s -> mag f_0_0009 <= mag s ->
  fin (fi k ⊗ s) /\ sign_of (fi k ⊗ s) = false /\
  mag (fi k ⊗ s) <= mag max_float_4 /\
  4503599627370495 * (k * mag s) <= 4503599627370496 * mag (fi k ⊗ s) /\
  4503599627370496 * mag (fi k ⊗ s) <= 4503599627370497 * (k * mag s).
Proof.
  intros Hk Hg Hpos. assert (Hbig := f_0_0009_large).
  destruct (scale_literal_fi k ltac:(lia)) as (Fk & Sk & Mk).
  destruct (fi_exact k ltac:(rewrite pow2_53; lia)) as (_ & Ek & _).
  destruct (scaled_ok (fi k) s Fk Sk Mk Hg) as (Hf & Hs & _ & _).
  destruct Hg as (Fs & Ss & Ms).
  assert (HM : mag max_float_4 = 128 * mag max_float_512) by (vm_compute; reflexivity).
  assert (HU : 0 < 2 ^ 1074) by (apply Z.pow_pos_nonneg; lia).
  assert (H0 := mag_nonneg s).
  assert (HkS : k * mag s <= 128 * mag max_float_512) by nia.
  assert (HkS' : mag s <= k * mag s) by nia.
  destruct (fmul_upper (fi k) s max_float_4 Fk Fs ltac:(reflexivity)) as (_ & Hle & _).
  { rewrite Ek, HM. replace (k * 2 ^ 1074 * mag s) with (k * mag s * 2 ^ 1074) by ring.
    apply Z.mul_le_mono_nonneg_r; lia. }
  destruct (fmul_rel (fi k) s Fk Fs Hf) as [H1 H2].
  { rewrite Ek. replace (k * 2 ^ 1074 * mag s) with (k * mag s * 2 ^ 1074) by ring.
    apply Z.mul_le_mono_nonneg_r; lia. }
  rewrite Ek in H1, H2. unfold fmul, prec, emax in *.
  set (D := mag (SFmul 53 1024 (fi k) s)) in *. clearbody D.
  set (S := mag s) in *. clearbody S. set (U := 2 ^ 1074) in *. clearbody U.
  repeat split; try assumption.
  - apply (mul_le_cancel_r _ _ U HU).
    replace (4503599627370495 * (k * S) * U) with (4503599627370495 * (k * U * S)) by ring.
    replace (4503599627370496 * D * U) with (4503599627370496 * (D * U)) by ring.
    exact H1.
  - apply (mul_le_cancel_r _ _ U HU).
    replace (4503599627370497 * (k * S) * U) with (4503599627370497 * (k * U * S)) by ring.
    replace (4503599627370496 * D * U) with (4503599627370496 * (D * U)) by ring.
    exact H2.
Qed.

(** A radius [base + j * scale]: it is finite, and it grows with [j]. *)
Lemma radius_ok base s j :
  good_scale s -> mag f_0_0009 <= mag s ->
  fin base -> sign_of base = false -> mag base <= mag max_float_4 ->
  1 <= j <= 128 ->
  fin (base ⊕ fi j ⊗ s) /\ sign_of (base ⊕ fi j ⊗ s) = false /\
  4503599627370495 * (mag base + mag (fi j ⊗ s))
    <= 4503599627370496 * mag (base ⊕ fi j ⊗ s) /\
  4503599627370496 * mag (base ⊕ fi j ⊗ s)
    <= 4503599627370497 * (mag base + mag (fi j ⊗ s)).
Proof.
  intros Hg Hpos Fb Sb Mb Hj. assert (Hbig := f_0_0009_large).
  destruct (scaled_product j s Hj Hg Hpos) as (Fd & Sd & Md & D1 & D2).
  assert (HM : mag max_float = 4 * mag max_float_4) by (vm_compute; reflexivity).
  assert (H0 := mag_nonneg base). assert (Hs0 := mag_nonneg s).
  assert (HjS : mag s <= j * mag s) by nia.
  destruct (fadd_upper base (fi j ⊗ s) max_float Fb Fd Sb Sd ltac:(reflexivity))
    as (Hf & _ & Hs); [lia | ].
  destruct (fadd_rel base (fi j ⊗ s) Fb Fd Sb Sd Hf) as [H1 H2]; [lia | ].
  unfold fadd, prec, emax. auto.
Qed.

Lemma radius_increasing base s j j' :
  good_scale s -> mag f_0_0009 <= mag s ->
  fin base -> sign_of base = false -> mag base <= mag max_float_4 ->
  mag base <= 100 * mag s ->
  1 <= j -> j < j' -> j' <= 60 ->
  fltb (base ⊕ fi j ⊗ s) (base ⊕ fi j' ⊗ s) = true.
Proof.
  intros Hg Hpos Fb Sb Mb Hb Hj Hjj Hj'.
  destruct (radius_ok base s j Hg Hpos Fb Sb Mb ltac:(lia)) as (F1 & S1 & _ & X2).
  destruct (radius_ok base s j' Hg Hpos Fb Sb Mb ltac:(lia)) as (F2 & S2 & X1' & _).
  destruct (scaled_product j s ltac:(lia) Hg Hpos) as (_ & _ & _ & _ & D2).
  destruct (scaled_product j' s ltac:(lia) Hg Hpos) as (_ & _ & _ & D1' & _).
  assert (Hbig := f_0_0009_large).
  assert (H0 := mag_nonneg base). assert (Hs0 := mag_nonneg s).
  apply fltb_mag; try assumption.
  set (X := mag (base ⊕ fi j ⊗ s)) in *. set (X' := mag (base ⊕ fi j' ⊗ s)) in *.
  set (D := mag (fi j ⊗ s)) in *. set (D' := mag (fi j' ⊗ s)) in *.
  set (R := mag base) in *. set (S := mag s) in *.
  clearbody X X' D D' R S.
  assert (A1 : j * S <= 60 * S) by nia.
  assert (A2 : j * S + S <= j' * S) by nia.
  set (a := j * S) in *. set (a' := j' * S) in *. clearbody a a'.
  lia.
Qed.

(** * The glow layer: the loop *)

Lemma mapM_map {A B : Type} (f : A -> result B) (g : A -> B) (l : list A) :
  Forall (fun a => f a = Ok (g a)) l -> mapM f l = Ok (map g l).
Proof.
  induction 1 as [ | a l Ha _ IH]; [reflexivity | ].
  cbn [mapM map]. rewrite Ha. cbn [bind]. rewrite IH. reflexivity.
Qed.

(** [int(k * scale)] for [k = 90] and [k = 30], read back as a float. *)
Lemma glow_base k s :
  1 <= k <= 90 -> good_scale s -> mag f_0_0009 <= mag s ->
  scaled (fi k) s = Ok (floor_float (fi k ⊗ s)) /\
  0 <= floor_float (fi k ⊗ s) /\
  float_of_int (floor_float (fi k ⊗ s)) = Ok (fi (floor_float (fi k ⊗ s))) /\
  fin (fi (floor_float (fi k ⊗ s))) /\
  sign_of (fi (floor_float (fi k ⊗ s))) = false /\
  mag (fi (floor_float (fi k ⊗ s))) <= mag max_float_4 /\
  mag (fi (floor_float (fi k ⊗ s))) <= 100 * mag s.
Proof.
  intros Hk Hg Hpos.
  destruct (scale_literal_fi k ltac:(lia)) as (Fk & Sk & Mk).
  destruct (scaled_ok (fi k) s Fk Sk Mk Hg) as (Hf & _ & Hok & Hn).
  destruct (scaled_product k s ltac:(lia) Hg Hpos) as (_ & _ & HM & _ & H2).
  destruct (of_Z_floor (fi k ⊗ s) Hf) as (Ff & Mf & Sf & Hc).
  assert (H0 := mag_nonneg s).
  change (fi (floor_float (fi k ⊗ s))) with (of_Z (floor_float (fi k ⊗ s))).
  set (b := of_Z (floor_float (fi k ⊗ s))) in *.
  set (P := mag (fi k ⊗ s)) in *. set (S := mag s) in *. clearbody b P S.
  assert (A : k * S <= 90 * S) by nia. set (a := k * S) in *. clearbody a.
  repeat split; try assumption; lia.
Qed.

Lemma glow_radius_ok base s j :
  good_scale s -> mag f_0_0009 <= mag s ->
  0 <= base -> float_of_int base = Ok (fi base) -> 1 <= j <= 128 ->
  (d <- imul j s ;; iadd base d) = Ok (fi base ⊕ fi j ⊗ s).
Proof.
  intros Hg Hpos Hb Hc Hj.
  destruct (fi_exact j ltac:(rewrite pow2_53; lia)) as (Fj & _ & _).
  unfold imul, iadd. rewrite (float_of_int_fin j Fj). cbn [bind].
  rewrite Hc. reflexivity.
Qed.

Lemma glow_cy_ok height fh s :
  0 <= height -> float_of_int height = Ok fh ->
  good_scale s -> mag f_0_0009 <= mag s ->
  glow_cy height s = Ok (floor_float (fh ⊗ f_0_46 ⊕ fi 45 ⊗ s)) /\
  float_of_int (floor_float (fh ⊗ f_0_46 ⊕ fi 45 ⊗ s))
    = Ok (fi (floor_float (fh ⊗ f_0_46 ⊕ fi 45 ⊗ s))).
Proof.
  intros Hh Hfh Hg Hpos.
  destruct (float_of_int_inv height fh Hh Hfh) as (_ & Ff & Sf).
  destruct (scaled_product 45 s ltac:(lia) Hg Hpos) as (Fd & Sd & Md & _ & _).
  assert (Hmax := fin_mag_le_max fh Ff).
  assert (M1 : mag max_float = 2 * mag max_float_2) by (vm_compute; reflexivity).
  assert (M2 : mag max_float_2 = 2 * mag max_float_4) by (vm_compute; reflexivity).
  assert (M3 : 2 * mag f_0_46 <= 2 ^ 1074) by closed_le.
  assert (H46 := mag_nonneg f_0_46). assert (H0 := mag_nonneg fh).
  destruct (fmul_upper fh f_0_46 max_float_2 Ff ltac:(reflexivity) ltac:(reflexivity))
    as (Fy & My & Sy).
  { set (U := 2 ^ 1074) in *. clearbody U.
    set (F := mag fh) in *. set (K := mag f_0_46) in *.
    set (B := mag max_float_2) in *. clearbody F K B.
    apply Z.le_trans with (2 * B * K); [apply Z.mul_le_mono_nonneg_r; lia | ].
    replace (2 * B * K) with (B * (2 * K)) by ring.
    apply Z.mul_le_mono_nonneg_l; lia. }
  rewrite Sf in Sy. cbn in Sy.
  destruct (fadd_upper (fh ⊗ f_0_46) (fi 45 ⊗ s) max_float Fy Fd Sy Sd ltac:(reflexivity))
    as (Fc & _ & Sc).
  { unfold fmul, prec, emax in *. lia. }
  unfold glow_cy, imul. rewrite Hfh. cbn [bind].
  split.
  - apply (int_of_float_fin _ Fc Sc).
  - apply (of_Z_floor _ Fc).
Qed.

Lemma half_width_ok width :
  0 < width -> fin (of_Z width) -> float_of_int (width / 2) = Ok (fi (width / 2)).
Proof.
  intros Hw Hf. apply float_of_int_fin.
  assert (Hb := of_Z_fin_bound width ltac:(lia) Hf).
  assert (E : mag two_1023 = 2 ^ 1023 * 2 ^ 1074) by (vm_compute; reflexivity).
  assert (P : 2 ^ 1024 = 2 * 2 ^ 1023) by (vm_compute; reflexivity).
  assert (HU : 0 < 2 ^ 1074) by (apply Z.pow_pos_nonneg; lia).
  destruct (of_Z_upper (width / 2) two_1023) as (F & _ & _);
    [apply Z.div_pos; lia | reflexivity | | exact F].
  rewrite E. apply Z.mul_le_mono_nonneg_r; [lia | ].
  rewrite P in Hb. set (T := 2 ^ 1023) in *. clearbody T.
  assert (width / 2 < T) by (apply Z.div_lt_upper_bound; lia). lia.
Qed.

(** C5. The glow layer is a separate image, transparent everywhere
    (RGBA, alpha 0), on which the loop draws exactly 20 ellipses, one
    for each [r] from 20 down to 1.  They share the centre
    [(width // 2, glow_cy)]: the bounding box of the ellipse for [r]
    is [centre - radius, centre + radius] with the horizontal radius
    [glow_rx + r * 3 * scale] and the vertical radius
    [glow_ry + r * 1 * scale], and its fill is the green
    [(46, 204, 113)] at alpha [min(8 * (20 - r), 50)].  Both radii are
    finite and strictly increasing in [r], while the alpha
    [8 * (20 - r)] is strictly decreasing in [r] (and the applied alpha
    does not increase).  The image [generate_image] returns has this
    layer alpha-composited onto the main canvas, between the
    background strokes and the icon. *)
Theorem glow_layer_concentric (rt : runtime) (width height : Z) (filename : string)
    (s fh : float) :
  0 < width -> 0 < height ->
  scale_of width = Ok s -> float_of_int height = Ok fh ->
  exists cy rx ry,
    glow_cy height s = Ok cy /\ glow_rx s = Ok rx /\ glow_ry s = Ok ry /\
    let cx := width / 2 in
    let ex r := fi rx ⊕ fi (r * 3) ⊗ s in
    let ey r := fi ry ⊕ fi (r * 1) ⊗ s in
    let glow :=
      Drawn (Image_new "RGBA" width height (RGBA 0 0 0 0))
        (map (fun r =>
                Ellipse (Flt (fi cx ⊖ ex r)) (Flt (fi cy ⊖ ey r))
                        (Flt (fi cx ⊕ ex r)) (Flt (fi cy ⊕ ey r))
                        (RGBA 46 204 113 (Z.min (8 * (20 - r)) 50)))
             [20; 19; 18; 17; 16; 15; 14; 13; 12; 11; 10; 9; 8; 7; 6; 5; 4; 3; 2; 1]) in
    glow_layer width height s = Ok glow /\
    (forall r, 1 <= r <= 20 ->
       glow_ex rx s r = Ok (ex r) /\ glow_ey ry s r = Ok (ey r) /\
       fin (ex r) /\ fin (ey r)) /\
    (forall r r', 1 <= r -> r < r' -> r' <= 20 ->
       fltb (ex r) (ex r') = true /\ fltb (ey r) (ey r') = true /\
       8 * (20 - r') < 8 * (20 - r) /\ glow_alpha r' < glow_alpha r /\
       applied_alpha r' <= applied_alpha r) /\
    (forall out,
       generate_image rt width height filename = Ok out ->
       exists before after,
         out = Paste_alpha (Image_new "RGB" width height BG_DARK)
                 (Drawn (Alpha_composite
                           (Drawn (Image_new "RGBA" width height BG_DARK) before)
                           glow)
                        after)).
Proof.
  intros Hw Hh Hs Hfh.
  assert (Hg := scale_of_good width s Hw Hs).
  assert (Hpos := scale_positive width s Hw Hs).
  destruct (scale_of_inv width s Hw Hs) as (_ & Fw & _).
  destruct (glow_cy_ok height fh s ltac:(lia) Hfh Hg Hpos) as (Hcy & Ccy).
  destruct (glow_base 90 s ltac:(lia) Hg Hpos) as (Hrx & Nrx & Crx & Frx & Srx & Mrx & Brx).
  destruct (glow_base 30 s ltac:(lia) Hg Hpos) as (Hry & Nry & Cry & Fry & Sry & Mry & Bry).
  assert (Ccx := half_width_ok width Hw Fw).
  set (cy := floor_float (fh ⊗ f_0_46 ⊕ fi 45 ⊗ s)) in *.
  set (rx := floor_float (fi 90 ⊗ s)) in *.
  set (ry := floor_float (fi 30 ⊗ s)) in *.
  clearbody cy rx ry.
  exists cy, rx, ry.
  split; [exact Hcy | ]. split; [exact Hrx | ]. split; [exact Hry | ].
  intros cx ex ey glow.
  assert (Hex : forall r, 1 <= r <= 20 -> glow_ex rx s r = Ok (ex r)).
  { intros r Hr. apply glow_radius_ok; try assumption. lia. }
  assert (Hey : forall r, 1 <= r <= 20 -> glow_ey ry s r = Ok (ey r)).
  { intros r Hr. apply glow_radius_ok; try assumption. lia. }
  assert (Hglow : glow_layer width height s = Ok glow).
  { unfold glow_layer. rewrite Hcy. cbn [bind]. unfold glow_rx, glow_ry.
    rewrite Hrx, Hry. cbn [bind]. rewrite glow_radii_eq.
    erewrite mapM_map; [reflexivity | ].
    apply Forall_forall. intros r Hin. cbn [In] in Hin.
    assert (Hr : 1 <= r <= 20) by lia.
    unfold glow_ellipse. rewrite (Hex r Hr), (Hey r Hr). cbn [bind].
    unfold isub, iadd. fold cx in Ccx |- *. rewrite Ccx, Ccy. reflexivity. }
  split; [exact Hglow | ].
  split.
  { intros r Hr. split; [now apply Hex | ]. split; [now apply Hey | ].
    split.
    - apply (radius_ok (fi rx) s (r * 3) Hg Hpos Frx Srx Mrx). lia.
    - apply (radius_ok (fi ry) s (r * 1) Hg Hpos Fry Sry Mry). lia. }
  split.
  { intros r r' H1 H2 H3.
    split; [apply radius_increasing; try assumption; lia | ].
    split; [apply radius_increasing; try assumption; lia | ].
    unfold applied_alpha, glow_alpha. lia. }
  intros out Hout.
  destruct (generate_image_inv rt width height filename out Hout)
    as (s' & bg & grid & dots & waves & glow' & icon & text_y & fonts & texts & bar &
        Hs' & _ & _ & _ & _ & Hg' & _ & _ & _ & _ & _ & _ & E).
  rewrite Hs in Hs'. injection Hs' as <-.
  rewrite Hglow in Hg'. injection Hg' as <-.
  exists (bg ++ grid ++ dots ++ waves), (icon ++ texts ++ bar). exact E.
Qed.

(** * The concrete runtime *)

Lemma pow_nat_zero n : (0 < n)%nat -> pow_nat (S754_zero false) n = S754_zero false.
Proof.
  induction n as [ | [ | n] IH]; intros H; [lia | reflexivity | ].
  change (pow_nat (S754_zero false) (S (S n)))
    with (S754_zero false ⊗ pow_nat (S754_zero false) (S n)).
  rewrite IH by lia. reflexivity.
Qed.

Lemma pow_nat_one n : (0 < n)%nat -> pow_nat (fi 1) n = fi 1.
Proof.
  induction n as [ | [ | n] IH]; intros H; [lia | reflexivity | ].
  change (pow_nat (fi 1) (S (S n))) with (fi 1 ⊗ pow_nat (fi 1) (S n)).
  rewrite IH by lia. reflexivity.
Qed.

Lemma no_mac_pow_exact : pow_exact_on_unit no_mac_runtime.
Proof.
  split; [ | split]; cbn [rt_pow no_mac_runtime].
  - intros x n _ _. eauto.
  - intros n Hn. now rewrite pow_nat_zero by lia.
  - intros n Hn. now rewrite pow_nat_one by lia.
Qed.

Lemma top_curve_250_finite : Forall finite_point top_curve_250.
Proof. repeat constructor. Qed.


Lemma scaled_measurements_witness :
  (exists r, dot_r (fi 250 ⊘ fi 1000) = Ok r /\ 2 <= r) /\
  (exists h, bar_h (fi 250 ⊘ fi 1000) = Ok h /\ 2 <= h).
Proof.
  destruct (scaled_measurements 250 (fi 250 ⊘ fi 1000) ltac:(lia) eq_refl)
    as (_ & _ & Hr & Hh & _).
  split; assumption.
Defined.

(** On a machine without the Helvetica file the 250x175 image is
    generated with the default font. *)
Lemma font_failure_only_caught_witness :
  exists out, generate_image no_mac_runtime 250 175 "small.png" = Ok out.
Proof.
  destruct (font_failure_only_caught no_mac_runtime 250 175 "small.png") as [H _].
  eexists. eapply H; try (vm_compute; reflexivity).
Defined.

(** The glow layer of the 250x175 image. *)
Lemma glow_layer_concentric_witness :
  exists glow, glow_layer 250 175 (fi 250 ⊘ fi 1000) = Ok glow.
Proof.
  destruct (glow_layer_concentric no_mac_runtime 250 175 "small.png"
              (fi 250 ⊘ fi 1000) (fi 175)
              ltac:(lia) ltac:(lia) eq_refl eq_refl)
    as (cy & rx & ry & _ & _ & _ & H & _).
  eexists. exact H.
Defined.
